(** * Merging_Multiple_File.py: the loader, the row cleaner and the merge engine

    A shallow embedding of [load_file], [clean_data], [merge_datasets] and of
    the loading loop of the main workflow, together with the part of pandas
    and Streamlit these functions call.

    Conventions of the model.
    - A character is a code point below 256, a Python [str] is a [string].
    - A cell is a Python object: a [str], an [int], or the float NaN that
      pandas uses as its missing marker.  Columns are object arrays, so the
      per-cell behaviour of [astype(str)], [dropna], [duplicated] and of the
      join is the one of pandas 2.x on object columns (the cast of a
      missing cell is the string "nan"); floating-point and date cells are
      outside the model.
    - DataFrames are mutable Python objects: they live in a heap and the
      functions receive and return references.
    - Streamlit's [st.error], [st.warning] and [st.info] append to a message
      log; [st.stop] raises [StopException], which is not an [Exception]
      and therefore crosses every [except Exception] handler. *)

From Stdlib Require Import ZArith String Ascii.
From stdpp Require Import base decidable option list strings pretty gmap.

Local Open Scope string_scope.
Local Open Scope list_scope.
Local Open Scope nat_scope.

(** ** Python strings *)

Module Str.

(** [c.isspace()] for a code point below 256: TAB..CR, FS..US, the space,
    NEL and the no-break space. *)
Definition isspace (c : ascii) : bool :=
  let n := nat_of_ascii c in
  (((9 <=? n) && (n <=? 13)) || ((28 <=? n) && (n <=? 32))
   || (n =? 133) || (n =? 160))%nat.

Fixpoint lstrip (s : string) : string :=
  match s with
  | EmptyString => EmptyString
  | String c s' => if isspace c then lstrip s' else s
  end.

Fixpoint rstrip (s : string) : string :=
  match s with
  | EmptyString => EmptyString
  | String c s' =>
      match rstrip s' with
      | EmptyString => if isspace c then EmptyString else String c EmptyString
      | r => String c r
      end
  end.

(** [s.strip()] *)
Definition strip (s : string) : string := rstrip (lstrip s).

(** [c.lower()] for a code point below 256: A..Z and the Latin-1 capitals
    (0xC0..0xDE but the multiplication sign) move up by 32. *)
Definition lower_char (c : ascii) : ascii :=
  let n := nat_of_ascii c in
  if (((65 <=? n) && (n <=? 90))
      || ((192 <=? n) && (n <=? 222) && negb (n =? 215)))%nat
  then ascii_of_nat (n + 32) else c.

(** [s.lower()] *)
Fixpoint lower (s : string) : string :=
  match s with
  | EmptyString => EmptyString
  | String c s' => String (lower_char c) (lower s')
  end.

Fixpoint rev_chars (s : string) (acc : list ascii) : list ascii :=
  match s with
  | EmptyString => acc
  | String c s' => rev_chars s' (c :: acc)
  end.

Fixpoint prefix_chars (p l : list ascii) : bool :=
  match p, l with
  | [], _ => true
  | _ :: _, [] => false
  | a :: p', b :: l' => bool_decide (a = b) && prefix_chars p' l'
  end.

(** [s.endswith(suffix)] *)
Definition endswith (s suffix : string) : bool :=
  prefix_chars (rev_chars suffix []) (rev_chars s []).

(** [sep.join(l)] on a list of [str] *)
Fixpoint join (sep : string) (l : list string) : string :=
  match l with
  | [] => ""
  | [s] => s
  | s :: l' => s +:+ sep +:+ join sep l'
  end.

End Str.

(** ** Cells *)

Inductive value : Type :=
| VStr (s : string)      (* a Python str *)
| VInt (n : Z)           (* a Python int *)
| VNaN.                  (* float('nan'), the missing marker *)

#[global] Instance value_eq_dec : EqDecision value.
Proof. solve_decision. Defined.

(** [pd.isna(v)] *)
Definition isna (v : value) : bool :=
  match v with VNaN => true | _ => false end.

(** [str(v)] *)
Definition py_str (v : value) : string :=
  match v with
  | VStr s => s
  | VInt n => pretty n
  | VNaN => "nan"
  end.

(** ** Exceptions *)

Inductive exn : Type :=
| KeyError (key : string)
| AttributeError (text : string)
| TypeError (text : string)
| ValueError (text : string)
| MergeError (dups : list string)
| OtherException (text : string)   (* any other subclass of Exception *)
| StopException.                   (* streamlit's script control: a BaseException *)

(** [isinstance(e, Exception)] *)
Definition is_Exception (e : exn) : bool :=
  match e with StopException => false | _ => true end.

(** A computation of the pandas layer: a result or a raised exception. *)
Definition res (A : Type) : Type := exn + A.

Definition res_bind {A B} (m : res A) (k : A → res B) : res B :=
  match m with inl e => inl e | inr a => k a end.

(** ** DataFrames *)

Record DataFrame : Type := mkDataFrame {
  columns : list string;
  rows : list (list value)
}.

(** [pd.DataFrame()] *)
Definition empty_frame : DataFrame := {| columns := []; rows := [] |}.

#[global] Instance DataFrame_inhabited : Inhabited DataFrame := populate empty_frame.

(** Every row has one cell per column. *)
Definition rectangular (df : DataFrame) : Prop :=
  Forall (λ r, length r = length (columns df)) (rows df).

(** [df.shape] *)
Definition shape (df : DataFrame) : nat * nat :=
  (length (rows df), length (columns df)).

(** [df.empty]: some axis has length 0. *)
Definition empty (df : DataFrame) : bool :=
  bool_decide (rows df = []) || bool_decide (columns df = []).

(** [index.get_indexer_for([k])]: the positions of the label [k]. *)
Fixpoint indexer_from (n : nat) (cols : list string) (k : string) : list nat :=
  match cols with
  | [] => []
  | c :: cols' =>
      if bool_decide (c = k) then n :: indexer_from (S n) cols' k
      else indexer_from (S n) cols' k
  end.

Definition get_indexer_for (cols : list string) (k : string) : list nat :=
  indexer_from 0 cols k.

(** The cell of a row at a position. *)
Definition cell (r : list value) (i : nat) : value := default VNaN (r !! i).

(** The values of the column at a position. *)
Definition column_at (df : DataFrame) (i : nat) : list value :=
  map (λ r, cell r i) (rows df).

(** What [df[k]] evaluates to. *)
Inductive pdobj : Type :=
| Series (vals : list value)
| Frame (df : DataFrame).

(** [df[k]]: a Series when the label is unique, the sub-frame of all the
    columns carrying the label when it is repeated, [KeyError] when absent. *)
Definition getitem (df : DataFrame) (k : string) : res pdobj :=
  match get_indexer_for (columns df) k with
  | [] => inl (KeyError k)
  | [i] => inr (Series (column_at df i))
  | ixs => inr (Frame {| columns := map (λ _, k) ixs;
                        rows := map (λ r, map (cell r) ixs) (rows df) |})
  end.

(** [o.astype(str)] *)
Definition astype_str (o : pdobj) : pdobj :=
  let cast := λ v, VStr (py_str v) in
  match o with
  | Series vals => Series (map cast vals)
  | Frame df => Frame {| columns := columns df; rows := map (map cast) (rows df) |}
  end.

(** Attribute access that only a Series supports ([.str], [.unique]). *)
Definition series_attr (attr : string) (o : pdobj) : res (list value) :=
  match o with
  | Series vals => inr vals
  | Frame _ => inl (AttributeError ("'DataFrame' object has no attribute '" +:+ attr +:+ "'"))
  end.

(** [s.str.strip()]: elementwise on the [str] cells, NaN elsewhere. *)
Definition str_strip (vals : list value) : list value :=
  map (λ v, match v with VStr s => VStr (Str.strip s) | _ => VNaN end) vals.

(** [df[k] = vals] for a Series aligned with the frame: every column carrying
    the label is overwritten in place; an absent label appends a column. *)
Fixpoint set_cells (ixs : list nat) (r : list value) (v : value) : list value :=
  match ixs with
  | [] => r
  | i :: ixs' => set_cells ixs' (<[i := v]> r) v
  end.

Definition setitem (df : DataFrame) (k : string) (vals : list value) : DataFrame :=
  match get_indexer_for (columns df) k with
  | [] => {| columns := columns df ++ [k];
             rows := zip_with (λ r v, r ++ [v]) (rows df) vals |}
  | ixs => {| columns := columns df;
             rows := zip_with (set_cells ixs) (rows df) vals |}
  end.

(** [df.dropna(subset=[k])]: a new frame without the rows that have a missing
    cell in a column labelled [k]; [KeyError] when there is no such column. *)
Definition dropna (df : DataFrame) (k : string) : res DataFrame :=
  match get_indexer_for (columns df) k with
  | [] => inl (KeyError k)    (* KeyError([k]) *)
  | ixs => inr {| columns := columns df;
                 rows := filter (λ r, forallb (λ i, negb (isna (cell r i))) ixs = true) (rows df) |}
  end.

(** [s.duplicated()]: marks every occurrence of a value but the first. *)
Fixpoint duplicated_from (seen vals : list value) : list bool :=
  match vals with
  | [] => []
  | v :: vals' => bool_decide (v ∈ seen) :: duplicated_from (v :: seen) vals'
  end.

Definition duplicated (vals : list value) : list bool := duplicated_from [] vals.

(** [s[mask]] *)
Fixpoint mask_select (vals : list value) (mask : list bool) : list value :=
  match vals, mask with
  | v :: vals', b :: mask' =>
      if b then v :: mask_select vals' mask' else mask_select vals' mask'
  | _, _ => []
  end.

(** [s.unique()]: the distinct values in order of first appearance. *)
Fixpoint unique_from (seen vals : list value) : list value :=
  match vals with
  | [] => []
  | v :: vals' =>
      if bool_decide (v ∈ seen) then unique_from seen vals'
      else v :: unique_from (v :: seen) vals'
  end.

Definition unique (vals : list value) : list value := unique_from [] vals.

(** [sep.join(arr)]: [TypeError] on an item that is not a [str]. *)
Fixpoint str_items (l : list value) : res (list string) :=
  match l with
  | [] => inr []
  | VStr s :: l' => res_bind (str_items l') (λ ss, inr (s :: ss))
  | _ :: _ => inl (TypeError "sequence item: expected str instance")
  end.

Definition py_join (sep : string) (l : list value) : res string :=
  res_bind (str_items l) (λ ss, inr (Str.join sep ss)).

(** ** [pd.merge(left, right, left_on=, right_on=, how='left', suffixes=('', rsuffix))] *)

(** The labels that the suffix made collide: repeated among the renamed
    labels without being repeated among the original ones. *)
Fixpoint suffix_dups (seen_old seen_new : list string)
    (labels : list (string * string)) : list string :=
  match labels with
  | [] => []
  | (old, new) :: rest =>
      let tl := suffix_dups (old :: seen_old) (new :: seen_new) rest in
      if bool_decide (new ∈ seen_new) && negb (bool_decide (old ∈ seen_old))
      then new :: tl else tl
  end.

(** The right frame's labels in the result: a label that also names a left
    column gets the suffix (the left suffix is empty, so left labels stay). *)
Definition right_labels (lcols rcols : list string) (rsuffix : string) : list string :=
  map (λ c, if bool_decide (c ∈ lcols) then c +:+ rsuffix else c) rcols.

(** The right rows whose key cell equals [k], in the right frame's order. *)
Definition matches (rrows : list (list value)) (j : nat) (k : value) : list (list value) :=
  filter (λ r, cell r j = k) rrows.

(** The rows of the left join: every left row in order, once per matching
    right row, or once with a missing fill when nothing matches. *)
Definition join_row (rrows : list (list value)) (i j : nat)
    (keep : list value → list value) (width : nat) (l : list value)
    : list (list value) :=
  match matches rrows j (cell l i) with
  | [] => [l ++ replicate width VNaN]
  | ms => map (λ r, l ++ keep r) ms
  end.

Definition join_rows (lrows rrows : list (list value)) (i j : nat)
    (keep : list value → list value) (width : nat) : list (list value) :=
  lrows ≫= join_row rrows i j keep width.

(** What the result keeps of the right frame, column-wise and cell-wise: a
    right key with the label of the left key is dropped. *)
Definition right_kept {A} (left_on right_on : string) (j : nat) (l : list A) : list A :=
  if bool_decide (left_on = right_on) then delete j l else l.

Definition pd_merge (left right : DataFrame) (left_on right_on rsuffix : string)
    : res DataFrame :=
  match get_indexer_for (columns right) right_on with
  | [] => inl (KeyError right_on)
  | [j] =>
      match get_indexer_for (columns left) left_on with
      | [] => inl (KeyError left_on)
      | [i] =>
          let rcols := right_kept left_on right_on j (columns right) in
          let rlabels := right_labels (columns left) rcols rsuffix in
          match suffix_dups [] [] (zip rcols rlabels) with
          | [] => inr {| columns := columns left ++ rlabels;
                         rows := join_rows (rows left) (rows right) i j
                                   (right_kept left_on right_on j) (length rcols) |}
          | dups => inl (MergeError dups)
          end
      | _ => inl (ValueError ("The column label '" +:+ left_on +:+ "' is not unique."))
      end
  | _ => inl (ValueError ("The column label '" +:+ right_on +:+ "' is not unique."))
  end.

(** ** The interpreter state: heap of DataFrames and Streamlit's messages *)

Inductive severity : Type := Error | Warning | Info.

(** A message as shown: [text] followed by [str(cause)] when an exception was
    interpolated at its end. *)
Record message : Type := mkMessage {
  sev : severity;
  text : string;
  cause : option exn
}.

Definition ref : Type := nat.

Record world : Type := mkWorld {
  heap : list DataFrame;
  shown : list message
}.

Definition M (A : Type) : Type := world → res A * world.

#[global] Instance M_ret : MRet M := λ A a w, (inr a, w).

#[global] Instance M_bind : MBind M := λ A B k m w,
  match m w with
  | (inl e, w') => (inl e, w')
  | (inr a, w') => k a w'
  end.

Definition raise {A} (e : exn) : M A := λ w, (inl e, w).

Definition lift {A} (r : res A) : M A := λ w, (r, w).

(** [try: body except Exception as e: handler(e)] *)
Definition try_except {A} (body : M A) (handler : exn → M A) : M A := λ w,
  match body w with
  | (inl e, w') => if is_Exception e then handler e w' else (inl e, w')
  | (inr a, w') => (inr a, w')
  end.

Definition deref (r : ref) : M DataFrame := λ w, (inr (default empty_frame (heap w !! r)), w).

Definition store (r : ref) (df : DataFrame) : M unit := λ w,
  (inr (), {| heap := <[r := df]> (heap w); shown := shown w |}).

Definition alloc (df : DataFrame) : M ref := λ w,
  (inr (length (heap w)), {| heap := heap w ++ [df]; shown := shown w |}).

Definition st_show (m : message) : M unit := λ w,
  (inr (), {| heap := heap w; shown := shown w ++ [m] |}).

Definition st_error (t : string) (c : option exn) : M unit := st_show (mkMessage Error t c).
Definition st_warning (t : string) : M unit := st_show (mkMessage Warning t None).
Definition st_info (t : string) : M unit := st_show (mkMessage Info t None).
Definition st_stop {A} : M A := raise StopException.

(** ** [clean_data] *)

Definition clean_data (df : option ref) (file_name : string) : M ref :=
  match df with
  | None =>
      st_warning ("Skipping cleaning for " +:+ file_name +:+ ": file could not be loaded.");;
      alloc empty_frame
  | Some r =>
      d ← deref r;
      if bool_decide ("completion %" ∈ columns d) then
        let original_shape := shape d in
        d' ← lift (dropna d "completion %");
        r' ← alloc d';
        st_info ("Cleaned " +:+ file_name +:+ " Removed rows with 'N/A' in completion %: "
                 +:+ py_str (VInt (Z.of_nat (original_shape.1) - Z.of_nat ((shape d').1))));;
        mret r'
      else mret r
  end.

(** ** [merge_datasets] *)

(** [df[k].astype(str).str.strip()] *)
Definition normalized_key (df : DataFrame) (k : string) : res (list value) :=
  res_bind (getitem df k) (λ o,
  res_bind (series_attr "str" (astype_str o)) (λ vals, inr (str_strip vals))).

(** [df[k] = df[k].astype(str).str.strip()], in place. *)
Definition normalize_inplace (r : ref) (k : string) : M unit :=
  df ← deref r;
  vals ← lift (normalized_key df k);
  store r (setitem df k vals).

(** [df[k][df[k].duplicated()].unique()] *)
Definition duplicate_keys (df : DataFrame) (k : string) : res (list value) :=
  res_bind (getitem df k) (λ o,
  res_bind (series_attr "unique" o) (λ vals,
    inr (unique (mask_select vals (duplicated vals))))).

(** The right suffix of the join: [f'_{key_new}_merge']. *)
Definition merge_suffix (key_new : string) : string := "_" +:+ key_new +:+ "_merge".

Definition merge_body (base_df new_df : ref) (key_base key_new : string) : M ref :=
  normalize_inplace base_df key_base;;
  normalize_inplace new_df key_new;;
  d ← deref new_df;
  d' ← lift (dropna d key_new);
  new_df' ← alloc d';
  dn ← deref new_df';
  dups ← lift (duplicate_keys dn key_new);
  (if bool_decide (0 < length dups) then
     listed ← lift (py_join ", " (take 10 dups));
     st_error ("Duplicate key values found in the secondary file: " +:+ listed) None;;
     st_stop
   else mret ());;
  b ← deref base_df;
  merged ← lift (pd_merge b dn key_base key_new (merge_suffix key_new));
  alloc merged.

Definition merge_datasets (base_df new_df : ref) (key_base key_new : string) : M ref :=
  try_except (merge_body base_df new_df key_base key_new)
    (λ e, st_error "Merge failed: " (Some e);; mret base_df).

(** ** [load_file] and the loading loop *)

Record UploadedFile : Type := mkFile {
  name : string;
  size : nat;
  content : string
}.

(** [d[k] = v] on a dict, which keeps the order of first insertion. *)
Fixpoint dict_set (d : list (string * ref)) (k : string) (v : ref) : list (string * ref) :=
  match d with
  | [] => [(k, v)]
  | (k', v') :: d' =>
      if bool_decide (k' = k) then (k, v) :: d' else (k', v') :: dict_set d' k v
  end.

Section Loader.

(** pandas' parsers, which are outside the repository. *)
Variable read_csv : UploadedFile → res DataFrame.
Variable read_excel : UploadedFile → res DataFrame.

(** [pd.read_csv(file) if file.name.endswith(".csv") else pd.read_excel(file)] *)
Definition read_table (file : UploadedFile) : res DataFrame :=
  if Str.endswith (name file) ".csv" then read_csv file else read_excel file.

Definition load_file (file : UploadedFile) : M (option ref) :=
  try_except
    ((if bool_decide (size file = 0) then raise (ValueError "File is empty")
      else mret ());;
     df ← lift (read_table file);
     (if empty df then raise (ValueError "No data found") else mret ());;
     r ← alloc {| columns := map (λ c, Str.strip (Str.lower c)) (columns df);
                  rows := rows df |};
     mret (Some r))
    (λ e, st_error ("Failed to load " +:+ name file +:+ ": ") (Some e);;
          mret None).

(** Lines 83-87: [file_data] after the loop over the uploaded files. *)
Fixpoint load_all (uploaded_files : list UploadedFile)
    (file_data : list (string * ref)) : M (list (string * ref)) :=
  match uploaded_files with
  | [] => mret file_data
  | f :: fs =>
      df ← load_file f;
      match df with
      | Some r =>
          c ← clean_data (Some r) (name f);
          load_all fs (dict_set file_data (name f) c)
      | None => load_all fs file_data
      end
  end.

End Loader.

(** ** The main workflow: session state, the merge steps, the final table *)

(** [d[k]] on a dict *)
Fixpoint dict_get (d : list (string * ref)) (k : string) : res ref :=
  match d with
  | [] => inl (KeyError k)
  | (k', v) :: d' => if bool_decide (k' = k) then inr v else dict_get d' k
  end.

(** [list(d.keys())] *)
Definition dict_keys (d : list (string * ref)) : list string := map fst d.

(** [st.session_state], with its two entries. *)
Record session : Type := mkSession {
  merged_df : option ref;
  used_files : option (gset string)
}.

(** What a run of the script works on: the interpreter state, the session
    state and the texts given to [st.success], in order. *)
Record page : Type := mkPage {
  sys : world;
  session_state : session;
  celebrated : list string
}.

Definition App (A : Type) : Type := page → res A * page.

#[global] Instance App_ret : MRet App := λ A a p, (inr a, p).

#[global] Instance App_bind : MBind App := λ A B k m p,
  match m p with
  | (inl e, p') => (inl e, p')
  | (inr a, p') => k a p'
  end.

(** Code of the functions above, run on the page's interpreter state. *)
Definition run {A} (m : M A) : App A := λ p,
  let (r, w') := m (sys p) in
  (r, {| sys := w'; session_state := session_state p; celebrated := celebrated p |}).

Definition app_lift {A} (r : res A) : App A := λ p, (r, p).

(** [st.session_state['merged_df']] *)
Definition get_merged_df : App ref := λ p,
  match merged_df (session_state p) with
  | Some r => (inr r, p)
  | None => (inl (KeyError "merged_df"), p)
  end.

(** [st.session_state['used_files']] *)
Definition get_used_files : App (gset string) := λ p,
  match used_files (session_state p) with
  | Some u => (inr u, p)
  | None => (inl (KeyError "used_files"), p)
  end.

(** [st.session_state['merged_df'] = r] *)
Definition set_merged_df (r : ref) : App unit := λ p,
  (inr (), {| sys := sys p;
              session_state := {| merged_df := Some r;
                                  used_files := used_files (session_state p) |};
              celebrated := celebrated p |}).

(** [st.session_state['used_files'] = u], also the effect of [.add] on the
    stored set. *)
Definition set_used_files (u : gset string) : App unit := λ p,
  (inr (), {| sys := sys p;
              session_state := {| merged_df := merged_df (session_state p);
                                  used_files := Some u |};
              celebrated := celebrated p |}).

Definition st_success (t : string) : App unit := λ p,
  (inr (), {| sys := sys p; session_state := session_state p;
              celebrated := celebrated p ++ [t] |}).

(** [f"{df.shape}"] *)
Definition shape_str (df : DataFrame) : string :=
  "(" +:+ py_str (VInt (Z.of_nat (shape df).1)) +:+ ", "
  +:+ py_str (VInt (Z.of_nat (shape df).2)) +:+ ")".

(** [bool(s)] for a [str] *)
Definition truthy (s : string) : bool := negb (bool_decide (s = "")).

(** Lines 101-104, the handler of "Merge Initial Files". *)
Definition merge_initial (file_data : list (string * ref))
    (file_1 file_2 key_1 key_2 : string) : App unit :=
  b ← app_lift (dict_get file_data file_1);
  s ← app_lift (dict_get file_data file_2);
  merged ← run (merge_datasets b s key_1 key_2);
  set_merged_df merged;;
  set_used_files {[file_1; file_2]};;
  m ← run (deref merged);
  st_success (file_2 +:+ " merged into " +:+ file_1 +:+ ". Shape: " +:+ shape_str m).

(** Lines 91-104.  The values of the four select boxes and of the button
    are parameters; the options of the key boxes are read from
    [file_data] before the button is tested. *)
Definition step_1 (file_data : list (string * ref))
    (file_1 file_2 key_1 key_2 : string) (pressed : bool) : App unit :=
  if bool_decide (2 ≤ length (dict_keys file_data)) then
    if truthy file_1 && truthy file_2 then
      app_lift (dict_get file_data file_1);;
      app_lift (dict_get file_data file_2);;
      if pressed then merge_initial file_data file_1 file_2 key_1 key_2
      else mret ()
    else mret ()
  else mret ().

(** Lines 116-118, the handler of a file's "Merge" button. *)
Definition merge_next (file_data : list (string * ref))
    (next_file key_current key_new : string) : App unit :=
  base ← get_merged_df;
  s ← app_lift (dict_get file_data next_file);
  merged ← run (merge_datasets base s key_current key_new);
  set_merged_df merged;;
  used ← get_used_files;
  set_used_files (used ∪ {[next_file]});;
  m ← get_merged_df;
  t ← run (deref m);
  st_success (next_file +:+ " merged successfully. New shape: " +:+ shape_str t).

(** Line 108: [[f for f in file_names if f not in used_files]] *)
Definition remaining_files (file_names : list string) (used : gset string) : list string :=
  filter (λ f, f ∉ used) file_names.

(** Lines 110-118.  [ui next_file] gives the values of the two key boxes
    and of the button of a file's expander; the options of the boxes are
    read before the button is tested. *)
Fixpoint merge_loop (file_data : list (string * ref)) (remaining : list string)
    (ui : string → string * string * bool) : App unit :=
  match remaining with
  | [] => mret ()
  | next_file :: rest =>
      get_merged_df;;
      app_lift (dict_get file_data next_file);;
      (if (ui next_file).2
       then merge_next file_data next_file (ui next_file).1.1 (ui next_file).1.2
       else mret ());;
      merge_loop file_data rest ui
  end.

(** Lines 106-118. *)
Definition step_2 (file_data : list (string * ref))
    (ui : string → string * string * bool) : App unit := λ p,
  match merged_df (session_state p) with
  | None => (inr (), p)
  | Some _ =>
      (used ← get_used_files;
       merge_loop file_data (remaining_files (dict_keys file_data) used) ui) p
  end.

(** [df[labels]]: the columns carrying the listed labels, in the order of
    the list; [KeyError] when a label names no column. *)
Definition getitem_list (df : DataFrame) (labels : list string) : res DataFrame :=
  match filter (λ k, k ∉ columns df) labels with
  | [] =>
      let ixs := labels ≫= get_indexer_for (columns df) in
      inr {| columns := ixs ≫= λ i, option_list (columns df !! i);
             rows := map (λ r, map (cell r) ixs) (rows df) |}
  | k :: _ => inl (KeyError k)
  end.

(** Lines 135-136: the name of the downloaded file. *)
Definition output_filename (user_filename : string) : string :=
  if negb (Str.endswith (Str.lower user_filename) ".csv")
  then user_filename +:+ ".csv" else user_filename.

(** * Tables, predicates and worlds used in the statements *)

(** The frame after [df[k] = df[k].astype(str).str.strip()], for the key at
    position [i]. *)
Definition normalized (df : DataFrame) (i : nat) : DataFrame :=
  {| columns := columns df;
     rows := map (λ r, <[i := VStr (Str.strip (py_str (cell r i)))]> r) (rows df) |}.

(** The normalized keys of a frame, as strings. *)
Definition normalized_keys (df : DataFrame) (i : nat) : list string :=
  map (λ r, Str.strip (py_str (cell r i))) (rows df).

(** How many times a value occurs in a list. *)
Definition occurrences {A} `{EqDecision A} (x : A) (l : list A) : nat :=
  length (filter (λ y, y = x) l).

(** The heap once both keys are normalized and [dropna] has produced the
    frame that the check and the join read. *)
Definition checked_heap (h : list DataFrame) (base_df new_df : ref)
    (b s : DataFrame) (i j : nat) : list DataFrame :=
  <[new_df := normalized s j]> (<[base_df := normalized b i]> h) ++ [normalized s j].

(** What [merge_datasets] leaves behind when the check finds the duplicated
    keys [dups]. *)
Definition halted (w : world) (base_df new_df : ref) (b s : DataFrame) (i j : nat)
    (dups : list string) : world :=
  {| heap := checked_heap (heap w) base_df new_df b s i j;
     shown := shown w ++
       [mkMessage Error
          ("Duplicate key values found in the secondary file: "
           +:+ Str.join ", " (take 10 dups)) None] |}.

(** The rows of a frame whose cell at position [j] is missing. *)
Definition missing_key_rows (df : DataFrame) (j : nat) : list (list value) :=
  filter (λ r, isna (cell r j) = true) (rows df).

(** A secondary table with ten duplicated keys ahead of its two missing
    ones. *)
Definition crowded_secondary : DataFrame :=
  mkDataFrame ["k"]
    (map (λ v, [v])
       [VStr "a"; VStr "a"; VStr "b"; VStr "b"; VStr "c"; VStr "c"; VStr "d"; VStr "d";
        VStr "e"; VStr "e"; VStr "f"; VStr "f"; VStr "g"; VStr "g"; VStr "h"; VStr "h";
        VStr "i"; VStr "i"; VStr "j"; VStr "j"; VNaN; VNaN]).

(** The labels the suffix would repeat, for which [pd.merge] raises. *)
Definition suffix_clashes (b s : DataFrame) (key_base key_new : string) (j : nat)
    : list string :=
  let rcols := right_kept key_base key_new j (columns s) in
  suffix_dups [] [] (zip rcols (right_labels (columns b) rcols (merge_suffix key_new))).

(** The table [pd.merge] builds from the two normalized tables. *)
Definition merged_frame (b s : DataFrame) (key_base key_new : string) (i j : nat)
    : DataFrame :=
  let rcols := right_kept key_base key_new j (columns s) in
  {| columns := columns b ++ right_labels (columns b) rcols (merge_suffix key_new);
     rows := join_rows (rows (normalized b i)) (rows (normalized s j)) i j
               (right_kept key_base key_new j) (length rcols) |}.

(** A row has no missing cell in a column labelled "completion %". *)
Definition completion_known (df : DataFrame) (r : list value) : Prop :=
  forallb (λ i, negb (isna (cell r i)))
    (get_indexer_for (columns df) "completion %") = true.

(** The table [df.dropna(subset=["completion %"])] builds. *)
Definition cleaned (df : DataFrame) : DataFrame :=
  {| columns := columns df;
     rows := filter (λ r, forallb (λ i, negb (isna (cell r i)))
                            (get_indexer_for (columns df) "completion %") = true)
               (rows df) |}.

(** The message of [clean_data] about the rows it removed. *)
Definition cleaned_info (file_name : string) (df : DataFrame) : message :=
  mkMessage Info
    ("Cleaned " +:+ file_name +:+ " Removed rows with 'N/A' in completion %: "
     +:+ py_str (VInt (Z.of_nat (length (rows df))
                       - Z.of_nat (length (rows (cleaned df))))))
    None.

(** What [load_file] returns and shows when the exception [e] is caught. *)
Definition load_failed (file : UploadedFile) (e : exn) (w : world)
    : res (option ref) * world :=
  (inr None,
   {| heap := heap w;
      shown := shown w ++
        [mkMessage Error ("Failed to load " +:+ name file +:+ ": ") (Some e)] |}).

(** Sample parsers for a run of the loader: a CSV file parses to one row,
    a workbook is rejected. *)
Definition sample_read_csv (file : UploadedFile) : res DataFrame :=
  inr (mkDataFrame [" ID "; "Completion %"] [[VInt 1; VNaN]]).

Definition sample_read_excel (file : UploadedFile) : res DataFrame :=
  inl (OtherException "File is not a zip file").

(** A table as the loading loop stores it: lower-cased, trimmed labels and
    no row with a missing "completion %". *)
Definition loaded_table (t : DataFrame) : Prop :=
  Forall (λ c, Str.lower c = c ∧ Str.strip c = c) (columns t)
  ∧ Forall (completion_known t) (rows t).

(** [file_data] names each table once, and its tables are distinct objects
    of the heap, each as the loading loop stores it. *)
Definition file_data_ok (file_data : list (string * ref)) (h : list DataFrame) : Prop :=
  NoDup (map fst file_data)
  ∧ NoDup (map snd file_data)
  ∧ ∀ k r, (k, r) ∈ file_data → ∃ t, h !! r = Some t ∧ loaded_table t.

(** A file that [load_file] accepts. *)
Definition loadable (read_csv read_excel : UploadedFile → res DataFrame)
    (f : UploadedFile) : Prop :=
  size f ≠ 0
  ∧ ∃ df, read_table read_csv read_excel f = inr df ∧ empty df = false.

(** A parser that fails raises an [Exception]. *)
Definition raises_Exception (parser : UploadedFile → res DataFrame) : Prop :=
  ∀ f e, parser f = inl e → is_Exception e = true.

(** Two tables with the same labels and as many rows, whose cells agree in
    every column that is not labelled [k]. *)
Definition same_but_column (k : string) (df df' : DataFrame) : Prop :=
  columns df' = columns df
  ∧ length (rows df') = length (rows df)
  ∧ ∀ p q r r',
      columns df !! q ≠ Some k →
      rows df !! p = Some r → rows df' !! p = Some r' →
      cell r' q = cell r q.

(** A row with its key cell, at position [i], cast and trimmed. *)
Definition normalized_row (i : nat) (r : list value) : list value :=
  <[i := VStr (Str.strip (py_str (cell r i)))]> r.

(** * Properties *)

(** ** Column positions *)

Lemma elem_of_indexer_from n cols k i :
  i ∈ indexer_from n cols k ↔ n ≤ i ∧ cols !! (i - n) = Some k.
Proof.
  revert n. induction cols as [|c cols IH]; intros n; simpl.
  - rewrite elem_of_nil. split; [done|]. intros [_ Hl]. by rewrite lookup_nil in Hl.
  - case_bool_decide as Hc.
    + rewrite elem_of_cons, IH. split.
      * intros [->|[Hle Hl]].
        -- rewrite Nat.sub_diag. simpl. split; [lia|congruence].
        -- split; [lia|]. replace (i - n) with (S (i - S n)) by lia. done.
      * intros [Hle Hl]. destruct (decide (i = n)) as [->|Hne]; [by left|right].
        split; [lia|]. replace (i - n) with (S (i - S n)) in Hl by lia. done.
    + rewrite IH. split.
      * intros [Hle Hl]. split; [lia|].
        replace (i - n) with (S (i - S n)) by lia. done.
      * intros [Hle Hl]. destruct (decide (i = n)) as [->|Hne].
        -- rewrite Nat.sub_diag in Hl. simpl in Hl. congruence.
        -- split; [lia|]. replace (i - n) with (S (i - S n)) in Hl by lia. done.
Qed.

Lemma elem_of_get_indexer_for cols k i :
  i ∈ get_indexer_for cols k ↔ cols !! i = Some k.
Proof.
  unfold get_indexer_for. rewrite elem_of_indexer_from, Nat.sub_0_r.
  split; [by intros [_ Hl] | split; [lia | done]].
Qed.

Lemma get_indexer_for_nil cols k :
  get_indexer_for cols k = [] ↔ k ∉ cols.
Proof.
  split.
  - intros Hnil [i Hi]%list_elem_of_lookup.
    apply elem_of_get_indexer_for in Hi. rewrite Hnil in Hi. by apply elem_of_nil in Hi.
  - intros Hk. destruct (get_indexer_for cols k) as [|i l] eqn:E; [done|].
    exfalso. apply Hk. apply list_elem_of_lookup. exists i.
    apply elem_of_get_indexer_for. rewrite E. by left.
Qed.

Lemma get_indexer_for_singleton cols k i :
  get_indexer_for cols k = [i] → cols !! i = Some k ∧ i < length cols.
Proof.
  intros E. assert (cols !! i = Some k) as H.
  { apply elem_of_get_indexer_for. rewrite E. by left. }
  split; [done|]. by eapply lookup_lt_Some.
Qed.


(** ** Key normalization *)

Lemma zip_with_map_r {A B C} (f : A → B → C) (g : A → B) (l : list A) :
  zip_with f l (map g l) = map (λ a, f a (g a)) l.
Proof. induction l as [|a l IH]; simpl; [done|]. by rewrite IH. Qed.

Lemma normalized_key_unique df k i :
  get_indexer_for (columns df) k = [i] →
  normalized_key df k = inr (map VStr (normalized_keys df i)).
Proof.
  intros E. unfold normalized_key, getitem. rewrite E. simpl.
  unfold str_strip, column_at, normalized_keys.
  by rewrite !map_map.
Qed.

Lemma normalized_key_absent df k :
  get_indexer_for (columns df) k = [] →
  normalized_key df k = inl (KeyError k).
Proof. intros E. unfold normalized_key, getitem. by rewrite E. Qed.

Lemma normalized_key_repeated df k i i' ixs :
  get_indexer_for (columns df) k = i :: i' :: ixs →
  normalized_key df k =
    inl (AttributeError "'DataFrame' object has no attribute 'str'").
Proof. intros E. unfold normalized_key, getitem. by rewrite E. Qed.

Lemma setitem_normalized df k i :
  get_indexer_for (columns df) k = [i] →
  setitem df k (map VStr (normalized_keys df i)) = normalized df i.
Proof.
  intros E. unfold setitem, normalized, normalized_keys. rewrite E.
  f_equal. by rewrite map_map, zip_with_map_r.
Qed.

Lemma cell_insert r i v : i < length r → cell (<[i := v]> r) i = v.
Proof. intros H. unfold cell. by rewrite list_lookup_insert_eq. Qed.


Lemma rectangular_normalized df i : rectangular df → rectangular (normalized df i).
Proof.
  unfold rectangular, normalized. simpl. intros H.
  apply Forall_map. eapply Forall_impl; [exact H|].
  intros r Hr. simpl. by rewrite length_insert.
Qed.

Lemma column_at_normalized df i :
  rectangular df → i < length (columns df) →
  column_at (normalized df i) i = map VStr (normalized_keys df i).
Proof.
  unfold rectangular, column_at, normalized, normalized_keys. simpl.
  intros H Hi. rewrite !map_map. apply map_ext_Forall.
  eapply Forall_impl; [exact H|]. intros r Hr. simpl in *.
  apply cell_insert. lia.
Qed.

Lemma dropna_normalized df k i :
  rectangular df → get_indexer_for (columns df) k = [i] →
  dropna (normalized df i) k = inr (normalized df i).
Proof.
  intros H E. unfold dropna. simpl. rewrite E.
  destruct (get_indexer_for_singleton _ _ _ E) as [_ Hi].
  f_equal. unfold normalized. simpl. f_equal.
  induction H as [|r rs Hr Hrs IH]; simpl; [done|].
  rewrite filter_cons_True.
  - by rewrite IH.
  - simpl in *. rewrite cell_insert by lia. done.
Qed.

(** ** Duplicate detection *)

Lemma occurrences_cons {A} `{EqDecision A} (x y : A) l :
  occurrences x (y :: l) = if decide (y = x) then S (occurrences x l) else occurrences x l.
Proof.
  unfold occurrences. destruct (decide (y = x)) as [E|E].
  - by rewrite filter_cons_True.
  - by rewrite filter_cons_False.
Qed.

Lemma occurrences_pos {A} `{EqDecision A} (x : A) l :
  1 ≤ occurrences x l ↔ x ∈ l.
Proof.
  induction l as [|y l IH].
  - unfold occurrences. simpl. rewrite elem_of_nil. lia.
  - rewrite occurrences_cons, elem_of_cons. destruct (decide (y = x)) as [->|E].
    + split; [by left | lia].
    + rewrite IH. split; [by right | intros [->|?]; [done|done]].
Qed.

Lemma occurrences_pos_not {A} `{EqDecision A} (x : A) l :
  x ∉ l → occurrences x l = 0.
Proof.
  intros Hx. pose proof (occurrences_pos x l) as Hpos.
  destruct (occurrences x l); [done|]. exfalso. apply Hx, Hpos. lia.
Qed.

Lemma occurrences_map_inj {A B} `{EqDecision A} `{EqDecision B}
    (f : A → B) `{!Inj (=) (=) f} (x : A) l :
  occurrences (f x) (map f l) = occurrences x l.
Proof.
  induction l as [|y l IH]; [done|]. simpl. rewrite !occurrences_cons, IH.
  destruct (decide (y = x)) as [->|E].
  - by rewrite decide_True.
  - rewrite decide_False; [done|]. intros E'. by apply E, (inj f).
Qed.

Lemma elem_of_unique_from seen vals v :
  v ∈ unique_from seen vals ↔ v ∈ vals ∧ v ∉ seen.
Proof.
  revert seen. induction vals as [|x vs IH]; intros seen; simpl.
  - rewrite elem_of_nil. tauto.
  - case_bool_decide as Hx.
    + rewrite IH, elem_of_cons. split; [tauto|].
      intros [[->|Hv] Hs]; [done|tauto].
    + rewrite !elem_of_cons, IH, elem_of_cons.
      destruct (decide (v = x)) as [->|Hne]; [tauto|]. tauto.
Qed.

Lemma NoDup_unique_from seen vals : NoDup (unique_from seen vals).
Proof.
  revert seen. induction vals as [|x vs IH]; intros seen; simpl.
  - constructor.
  - case_bool_decide as Hx; [apply IH|].
    constructor; [|apply IH].
    rewrite elem_of_unique_from, elem_of_cons. tauto.
Qed.

Lemma elem_of_mask_duplicated seen vals v :
  v ∈ mask_select vals (duplicated_from seen vals)
  ↔ (v ∈ seen ∧ v ∈ vals) ∨ 2 ≤ occurrences v vals.
Proof.
  revert seen. induction vals as [|x vs IH]; intros seen; simpl.
  - unfold occurrences. simpl. rewrite !elem_of_nil. split; [done|]. intros [[_ []]|?]. lia.
  - assert (v ∈ mask_select vs (duplicated_from (x :: seen) vs)
            ↔ (v = x ∧ v ∈ vs) ∨ (v ∈ seen ∧ v ∈ vs) ∨ 2 ≤ occurrences v vs) as IH'.
    { rewrite IH, elem_of_cons. tauto. }
    pose proof (occurrences_pos v vs) as Hpos.
    rewrite occurrences_cons.
    case_bool_decide as Hx; rewrite ?elem_of_cons, IH', ?elem_of_cons;
      destruct (decide (x = v)) as [->|Hne].
    + split; [tauto|]. intros [[Hs _]|Hocc]; [tauto|].
      right. left. split; [done|]. apply Hpos. lia.
    + split.
      * intros [->|[[-> _]|[[? ?]|?]]]; tauto.
      * intros [[? [->|?]]|?]; tauto.
    + split.
      * intros [[_ Hv]|[[Hs _]|Hocc]]; [|done|right; lia].
        right. apply Hpos in Hv. lia.
      * intros [[Hs _]|Hocc]; [done|]. left. split; [done|]. apply Hpos. lia.
    + split.
      * intros [[-> _]|[[? ?]|?]]; tauto.
      * intros [[? [->|?]]|?]; tauto.
Qed.

(** The duplicate values reported by the check on a key column. *)
Lemma duplicates_spec vals :
  let dups := unique (mask_select vals (duplicated vals)) in
  NoDup dups ∧ ∀ v, v ∈ dups ↔ 2 ≤ occurrences v vals.
Proof.
  simpl. split; [apply NoDup_unique_from|]. intros v. unfold unique, duplicated.
  rewrite elem_of_unique_from, elem_of_mask_duplicated, elem_of_nil. tauto.
Qed.

Lemma str_items_map_VStr ss : str_items (map VStr ss) = inr ss.
Proof. induction ss as [|s ss IH]; simpl; [done|]. by rewrite IH. Qed.

Lemma sublist_of_strs (l : list value) (ss : list string) :
  l ⊆ map VStr ss → ∃ ts, l = map VStr ts.
Proof.
  induction l as [|v l IH]; intros Hsub.
  - by exists [].
  - destruct IH as [ts ->].
    { intros x Hx. apply Hsub. by right. }
    assert (v ∈ map VStr ss) as Hv by (apply Hsub; by left).
    apply list_elem_of_In, in_map_iff in Hv as (s & <- & _).
    by exists (s :: ts).
Qed.

Lemma take_map {A B} (f : A → B) n (l : list A) : take n (map f l) = map f (take n l).
Proof. revert n. induction l as [|a l IH]; intros [|n]; simpl; [done..|]. by rewrite IH. Qed.

(** ** Evaluating the monadic code *)

Lemma bind_eval {A B} (m : M A) (k : A → M B) w :
  (m ≫= k) w = match m w with
               | (inl e, w') => (inl e, w')
               | (inr a, w') => k a w'
               end.
Proof. reflexivity. Qed.

Lemma bind_deref {B} r (k : DataFrame → M B) w df :
  heap w !! r = Some df → (deref r ≫= k) w = k df w.
Proof. intros H. rewrite bind_eval. unfold deref. by rewrite H. Qed.

Lemma bind_lift_inr {A B} (a : A) (k : A → M B) w : (lift (inr a) ≫= k) w = k a w.
Proof. reflexivity. Qed.

Lemma bind_lift_inl {A B} e (k : A → M B) w : (lift (inl e) ≫= k) w = (inl e, w).
Proof. reflexivity. Qed.

Lemma bind_alloc {B} df (k : ref → M B) w :
  (alloc df ≫= k) w
  = k (length (heap w)) {| heap := heap w ++ [df]; shown := shown w |}.
Proof. reflexivity. Qed.

Lemma bind_ret {A B} (a : A) (k : A → M B) w : (mret a ≫= k) w = k a w.
Proof. reflexivity. Qed.


Lemma bind_st_show {B} m (k : unit → M B) w :
  (st_show m ≫= k) w = k () {| heap := heap w; shown := shown w ++ [m] |}.
Proof. reflexivity. Qed.

Lemma normalize_inplace_ok w r k df i :
  heap w !! r = Some df →
  get_indexer_for (columns df) k = [i] →
  normalize_inplace r k w
  = (inr (), {| heap := <[r := normalized df i]> (heap w); shown := shown w |}).
Proof.
  intros Hr E. unfold normalize_inplace, deref, lift, store.
  rewrite !bind_eval, Hr. simpl.
  by rewrite (normalized_key_unique _ _ _ E), (setitem_normalized _ _ _ E).
Qed.

Lemma normalize_inplace_raise w r k df e :
  heap w !! r = Some df →
  normalized_key df k = inl e →
  normalize_inplace r k w = (inl e, w).
Proof.
  intros Hr E. unfold normalize_inplace, deref, lift, store.
  rewrite !bind_eval, Hr. simpl. by rewrite E.
Qed.

Lemma duplicate_keys_unique df k j :
  get_indexer_for (columns df) k = [j] →
  duplicate_keys df k
  = inr (unique (mask_select (column_at df j) (duplicated (column_at df j)))).
Proof. intros E. unfold duplicate_keys, getitem. by rewrite E. Qed.

Section MergeBody.

Context (w : world) (base_df new_df : ref) (key_base key_new : string).
Context (b s : DataFrame) (i j : nat).
Hypothesis Hdistinct : base_df ≠ new_df.
Hypothesis Hbase : heap w !! base_df = Some b.
Hypothesis Hnew : heap w !! new_df = Some s.
Hypothesis Hrect : rectangular s.
Hypothesis Hi : get_indexer_for (columns b) key_base = [i].
Hypothesis Hj : get_indexer_for (columns s) key_new = [j].

Let h := checked_heap (heap w) base_df new_df b s i j.
Let dups := unique (mask_select (map VStr (normalized_keys s j))
                      (duplicated (map VStr (normalized_keys s j)))).

Lemma checked_heap_base : h !! base_df = Some (normalized b i).
Proof.
  subst h. unfold checked_heap.
  apply lookup_lt_Some in Hbase as Hlt.
  rewrite lookup_app_l by (by rewrite !length_insert).
  rewrite list_lookup_insert_ne by done.
  by rewrite list_lookup_insert_eq.
Qed.

Lemma checked_heap_new : h !! new_df = Some (normalized s j).
Proof.
  subst h. unfold checked_heap.
  apply lookup_lt_Some in Hnew as Hlt.
  rewrite lookup_app_l by (by rewrite !length_insert).
  by rewrite list_lookup_insert_eq by (by rewrite length_insert).
Qed.

Lemma checked_heap_length : length h = S (length (heap w)).
Proof.
  subst h. unfold checked_heap.
  rewrite length_app, !length_insert. simpl. lia.
Qed.

Lemma merge_body_eval :
  merge_body base_df new_df key_base key_new w =
    if bool_decide (0 < length dups) then
      match py_join ", " (take 10 dups) with
      | inr listed =>
          (inl StopException,
           {| heap := h;
              shown := shown w ++
                [mkMessage Error
                   ("Duplicate key values found in the secondary file: " +:+ listed)
                   None] |})
      | inl e => (inl e, {| heap := h; shown := shown w |})
      end
    else
      match pd_merge (normalized b i) (normalized s j) key_base key_new
              (merge_suffix key_new) with
      | inr merged =>
          (inr (S (length (heap w))), {| heap := h ++ [merged]; shown := shown w |})
      | inl e => (inl e, {| heap := h; shown := shown w |})
      end.
Proof.
  destruct (get_indexer_for_singleton _ _ _ Hj) as [_ Hjlt].
  apply lookup_lt_Some in Hbase as Hblt.
  apply lookup_lt_Some in Hnew as Hnlt.
  unfold merge_body.
  rewrite bind_eval, (normalize_inplace_ok _ _ _ _ _ Hbase Hi).
  rewrite bind_eval, (normalize_inplace_ok _ _ _ s j); cycle 1.
  { simpl. by rewrite list_lookup_insert_ne. }
  { done. }
  rewrite (bind_deref _ _ _ (normalized s j)); cycle 1.
  { simpl. by rewrite list_lookup_insert_eq by (by rewrite length_insert). }
  rewrite (dropna_normalized _ _ _ Hrect Hj), bind_lift_inr, bind_alloc.
  cbn [heap shown].
  rewrite (bind_deref _ _ _ (normalized s j)); cycle 1.
  { simpl. rewrite lookup_app_r by done. by rewrite Nat.sub_diag. }
  rewrite (duplicate_keys_unique (normalized s j) key_new j Hj), bind_lift_inr.
  rewrite (column_at_normalized _ _ Hrect Hjlt).
  fold dups. fold (checked_heap (heap w) base_df new_df b s i j). fold h.
  rewrite bind_eval.
  case_bool_decide as Hd.
  - destruct (py_join ", " (take 10 dups)) as [e|listed].
    + by rewrite bind_lift_inl.
    + rewrite bind_lift_inr. unfold st_error. by rewrite bind_st_show.
  - unfold mret at 1, M_ret.
    rewrite (bind_deref _ _ _ (normalized b i)) by apply checked_heap_base.
    destruct (pd_merge _ _ _ _ _) as [e|merged].
    + by rewrite bind_lift_inl.
    + rewrite bind_lift_inr. unfold alloc. cbn [heap shown].
      by rewrite checked_heap_length.
Qed.

End MergeBody.

Lemma try_except_eval {A} (body : M A) (handler : exn → M A) w :
  try_except body handler w =
    match body w with
    | (inl e, w') => if is_Exception e then handler e w' else (inl e, w')
    | (inr a, w') => (inr a, w')
    end.
Proof. reflexivity. Qed.

#[global] Instance VStr_inj : Inj (=) (=) VStr.
Proof. by intros ?? [= ->]. Qed.

(** The values reported by the duplicate check are strings: the distinct
    normalized keys that occur more than once. *)
Lemma duplicate_strings (keys : list string) :
  ∃ ds : list string,
    unique (mask_select (map VStr keys) (duplicated (map VStr keys))) = map VStr ds
    ∧ NoDup ds
    ∧ ∀ k, k ∈ ds ↔ 2 ≤ occurrences k keys.
Proof.
  destruct (duplicates_spec (map VStr keys)) as [Hnd Hin]. simpl in *.
  destruct (sublist_of_strs
              (unique (mask_select (map VStr keys) (duplicated (map VStr keys)))) keys)
    as [ds Hds].
  { intros v Hv. apply Hin in Hv. apply occurrences_pos. lia. }
  exists ds. rewrite Hds in *. split; [done|]. split.
  - by apply (NoDup_fmap_1 VStr).
  - intros k. rewrite <- (occurrences_map_inj VStr), <- Hin.
    split.
    + intros Hk. apply list_elem_of_In, in_map. by apply list_elem_of_In.
    + intros Hk. apply list_elem_of_In, in_map_iff in Hk as (k' & [= ->] & Hk').
      by apply list_elem_of_In.
Qed.

(** ** The duplicate-key hard stop *)

Lemma merge_datasets_duplicates
    (w : world) (base_df new_df : ref) (key_base key_new : string)
    (b s : DataFrame) (i j : nat) :
  base_df ≠ new_df →
  heap w !! base_df = Some b →
  heap w !! new_df = Some s →
  rectangular s →
  get_indexer_for (columns b) key_base = [i] →
  get_indexer_for (columns s) key_new = [j] →
  (∃ k, 2 ≤ occurrences k (normalized_keys s j)) →
  ∃ dups : list string,
    NoDup dups
    ∧ (∀ k, k ∈ dups ↔ 2 ≤ occurrences k (normalized_keys s j))
    ∧ merge_datasets base_df new_df key_base key_new w
      = (inl StopException, halted w base_df new_df b s i j dups).
Proof.
  intros Hd Hb Hn Hrect Hi Hj [k Hk].
  destruct (duplicate_strings (normalized_keys s j)) as (ds & Hds & Hnd & Hin).
  exists ds. split; [done|]. split; [done|].
  unfold merge_datasets, halted.
  rewrite try_except_eval, (merge_body_eval _ _ _ _ _ b s i j) by done.
  rewrite Hds. rewrite bool_decide_true.
  - unfold py_join. by rewrite take_map, str_items_map_VStr.
  - apply Hin in Hk. rewrite length_map.
    destruct ds; [by apply elem_of_nil in Hk|simpl; lia].
Qed.

(** C1.  When both key columns exist (so that the keys are normalized) and
    some normalized key of the secondary table occurs more than once,
    [merge_datasets] raises [StopException] through its own handler: it
    returns no table and nothing sequenced after it runs.  The one message
    it shows lists the distinct duplicated keys, cut to the first 10. *)
Theorem merge_duplicate_keys_halt
    (w : world) (base_df new_df : ref) (key_base key_new : string)
    (b s : DataFrame) (i j : nat) :
  base_df ≠ new_df →
  heap w !! base_df = Some b →
  heap w !! new_df = Some s →
  rectangular s →
  get_indexer_for (columns b) key_base = [i] →
  get_indexer_for (columns s) key_new = [j] →
  (∃ k, 2 ≤ occurrences k (normalized_keys s j)) →
  ∃ dups : list string,
    NoDup dups
    ∧ (∀ k, k ∈ dups ↔ 2 ≤ occurrences k (normalized_keys s j))
    ∧ let w' :=
        {| heap := checked_heap (heap w) base_df new_df b s i j;
           shown := shown w ++
             [mkMessage Error
                ("Duplicate key values found in the secondary file: "
                 +:+ Str.join ", " (take 10 dups)) None] |} in
      merge_datasets base_df new_df key_base key_new w = (inl StopException, w')
      ∧ ∀ (B : Type) (next : ref → M B),
          (merge_datasets base_df new_df key_base key_new ≫= next) w
          = (inl StopException, w').
Proof.
  intros Hd Hb Hn Hrect Hi Hj Hk.
  destruct (merge_datasets_duplicates w base_df new_df key_base key_new b s i j)
    as (ds & Hnd & Hin & Heq); try done.
  exists ds. split; [done|]. split; [done|]. simpl.
  split; [done|]. intros B next. by rewrite bind_eval, Heq.
Qed.

Lemma merge_duplicate_keys_halt_witness :
  ∃ dups : list string,
    NoDup dups
    ∧ (∀ k, k ∈ dups
            ↔ 2 ≤ occurrences k
                    (normalized_keys
                       (mkDataFrame ["id"; "v"]
                          [[VStr "1"; VInt 5]; [VStr " 1"; VInt 6]]) 0))
    ∧ let w' :=
        {| heap := checked_heap
                     [mkDataFrame ["id"] [[VStr "1"]; [VStr "2"]];
                      mkDataFrame ["id"; "v"] [[VStr "1"; VInt 5]; [VStr " 1"; VInt 6]]]
                     0 1
                     (mkDataFrame ["id"] [[VStr "1"]; [VStr "2"]])
                     (mkDataFrame ["id"; "v"] [[VStr "1"; VInt 5]; [VStr " 1"; VInt 6]])
                     0 0;
           shown := [] ++
             [mkMessage Error
                ("Duplicate key values found in the secondary file: "
                 +:+ Str.join ", " (take 10 dups)) None] |} in
      merge_datasets 0 1 "id" "id"
        (mkWorld
           [mkDataFrame ["id"] [[VStr "1"]; [VStr "2"]];
            mkDataFrame ["id"; "v"] [[VStr "1"; VInt 5]; [VStr " 1"; VInt 6]]] [])
      = (inl StopException, w')
      ∧ ∀ (B : Type) (next : ref → M B),
          (merge_datasets 0 1 "id" "id" ≫= next)
            (mkWorld
               [mkDataFrame ["id"] [[VStr "1"]; [VStr "2"]];
                mkDataFrame ["id"; "v"] [[VStr "1"; VInt 5]; [VStr " 1"; VInt 6]]] [])
          = (inl StopException, w').
Proof.
  apply (merge_duplicate_keys_halt
           (mkWorld
              [mkDataFrame ["id"] [[VStr "1"]; [VStr "2"]];
               mkDataFrame ["id"; "v"] [[VStr "1"; VInt 5]; [VStr " 1"; VInt 6]]] [])
           0 1 "id" "id"
           (mkDataFrame ["id"] [[VStr "1"]; [VStr "2"]])
           (mkDataFrame ["id"; "v"] [[VStr "1"; VInt 5]; [VStr " 1"; VInt 6]])
           0 0).
  - lia.
  - reflexivity.
  - reflexivity.
  - repeat constructor.
  - reflexivity.
  - reflexivity.
  - exists "1". vm_compute. lia.
Defined.

(** ** Missing secondary keys *)

Lemma missing_keys_become_nan df j :
  length (missing_key_rows df j) ≤ occurrences "nan" (normalized_keys df j).
Proof.
  unfold missing_key_rows, normalized_keys.
  induction (rows df) as [|r rs IH]; simpl; [done|].
  rewrite occurrences_cons.
  destruct (decide (isna (cell r j) = true)) as [Hna|Hna].
  - rewrite filter_cons_True by done. simpl.
    destruct (cell r j); try discriminate.
    rewrite decide_True by reflexivity. lia.
  - rewrite filter_cons_False by done.
    destruct (decide _); lia.
Qed.

Lemma normalized_missing_row df j r :
  r ∈ rows df → isna (cell r j) = true →
  <[j := VStr "nan"]> r ∈ rows (normalized df j).
Proof.
  intros Hr Hna. unfold normalized. simpl.
  apply list_elem_of_In, in_map_iff. exists r. split; [|by apply list_elem_of_In].
  destruct (cell r j); try discriminate. reflexivity.
Qed.

(** C9, as the code has it.  When both key columns exist and two or more
    rows of the secondary table have a missing key, none of these rows is
    dropped: the cast makes each of their keys the string "nan", in the
    caller's table and in the table the check reads, "nan" is one of the
    duplicated keys and [merge_datasets] stops the script.  The message
    lists the first 10 duplicated keys, so it names "nan" whenever at most
    10 keys are duplicated. *)
Theorem merge_missing_keys_collide
    (w : world) (base_df new_df : ref) (key_base key_new : string)
    (b s : DataFrame) (i j : nat) :
  base_df ≠ new_df →
  heap w !! base_df = Some b →
  heap w !! new_df = Some s →
  rectangular s →
  get_indexer_for (columns b) key_base = [i] →
  get_indexer_for (columns s) key_new = [j] →
  2 ≤ length (missing_key_rows s j) →
  ∃ dups : list string,
    NoDup dups
    ∧ "nan" ∈ dups
    ∧ (length dups ≤ 10 → "nan" ∈ take 10 dups)
    ∧ merge_datasets base_df new_df key_base key_new w
      = (inl StopException, halted w base_df new_df b s i j dups)
    ∧ heap (halted w base_df new_df b s i j dups) !! new_df = Some (normalized s j)
    ∧ heap (halted w base_df new_df b s i j dups) !! length (heap w)
      = Some (normalized s j)
    ∧ length (rows (normalized s j)) = length (rows s)
    ∧ ∀ r, r ∈ missing_key_rows s j → <[j := VStr "nan"]> r ∈ rows (normalized s j).
Proof.
  intros Hd Hb Hn Hrect Hi Hj Hmiss.
  pose proof (missing_keys_become_nan s j) as Hnan.
  destruct (merge_datasets_duplicates w base_df new_df key_base key_new b s i j)
    as (ds & Hnd & Hin & Heq); try done.
  { exists "nan". lia. }
  assert ("nan" ∈ ds) as Hds by (apply Hin; lia).
  exists ds. repeat split; try done.
  - intros Hlen. by rewrite take_ge.
  - by apply (checked_heap_new w base_df new_df b s i j).
  - simpl. unfold checked_heap. apply lookup_lt_Some in Hn.
    rewrite lookup_app_r by (by rewrite !length_insert).
    by rewrite !length_insert, Nat.sub_diag.
  - unfold normalized. simpl. by rewrite length_map.
  - intros r [Hna Hr]%list_elem_of_filter. by apply normalized_missing_row.
Qed.

Lemma merge_missing_keys_collide_witness :
  let b := mkDataFrame ["id"] [[VStr "1"]] in
  let s := mkDataFrame ["k"; "v"] [[VNaN; VInt 5]; [VStr "7"; VInt 6]; [VNaN; VInt 8]] in
  let w := mkWorld [b; s] [] in
  ∃ dups : list string,
    NoDup dups
    ∧ "nan" ∈ dups
    ∧ (length dups ≤ 10 → "nan" ∈ take 10 dups)
    ∧ merge_datasets 0 1 "id" "k" w = (inl StopException, halted w 0 1 b s 0 0 dups)
    ∧ heap (halted w 0 1 b s 0 0 dups) !! 1 = Some (normalized s 0)
    ∧ heap (halted w 0 1 b s 0 0 dups) !! length (heap w) = Some (normalized s 0)
    ∧ length (rows (normalized s 0)) = length (rows s)
    ∧ ∀ r, r ∈ missing_key_rows s 0 → <[0 := VStr "nan"]> r ∈ rows (normalized s 0).
Proof.
  intros b s w.
  apply (merge_missing_keys_collide w 0 1 "id" "k" b s 0 0).
  - lia.
  - reflexivity.
  - reflexivity.
  - repeat constructor.
  - reflexivity.
  - reflexivity.
  - vm_compute. lia.
Defined.

(** C9 as stated fails: with ten other duplicated keys ahead of them, two
    missing keys stop the script but the message does not name "nan". *)
Lemma merge_missing_keys_not_reported :
  let w := mkWorld [mkDataFrame ["id"] [[VStr "1"]]; crowded_secondary] [] in
  length (missing_key_rows crowded_secondary 0) = 2
  ∧ ∃ w', merge_datasets 0 1 "id" "k" w = (inl StopException, w')
          ∧ shown w' =
              [mkMessage Error
                 "Duplicate key values found in the secondary file: a, b, c, d, e, f, g, h, i, j"
                 None].
Proof.
  split; [reflexivity|]. eexists. split; [vm_compute; reflexivity|reflexivity].
Qed.

(** C2 at a failing input: both files have one row with an empty key cell.
    The secondary row is not dropped; its key is now "nan", it matches the
    base row, and its value 5 is in the merged table. *)
Lemma merge_missing_key_row_joined :
  let b := mkDataFrame ["id"; "name"] [[VNaN; VStr "x"]] in
  let s := mkDataFrame ["k"; "v"] [[VNaN; VInt 5]] in
  merge_datasets 0 1 "id" "k" (mkWorld [b; s] [])
  = (inr 3,
     mkWorld
       [mkDataFrame ["id"; "name"] [[VStr "nan"; VStr "x"]];
        mkDataFrame ["k"; "v"] [[VStr "nan"; VInt 5]];
        mkDataFrame ["k"; "v"] [[VStr "nan"; VInt 5]];
        mkDataFrame ["id"; "name"; "k"; "v"]
          [[VStr "nan"; VStr "x"; VStr "nan"; VInt 5]]]
       []).
Proof. reflexivity. Qed.

(** ** The left join *)

Section Join.

Context (rrows : list (list value)) (i j : nat).
Context (keep : list value → list value) (width : nat).

Lemma join_row_length l :
  length (join_row rrows i j keep width l)
  = Nat.max 1 (length (matches rrows j (cell l i))).
Proof.
  unfold join_row. destruct (matches rrows j (cell l i)) as [|r ms]; [done|].
  rewrite length_map. simpl. lia.
Qed.

Lemma join_rows_cons l lrows :
  join_rows (l :: lrows) rrows i j keep width
  = join_row rrows i j keep width l ++ join_rows lrows rrows i j keep width.
Proof. reflexivity. Qed.

Lemma join_rows_length_ge lrows :
  length lrows ≤ length (join_rows lrows rrows i j keep width).
Proof.
  induction lrows as [|l lrows IH]; [done|].
  rewrite join_rows_cons, length_app, join_row_length. simpl. lia.
Qed.

Lemma join_rows_length_eq lrows :
  length (join_rows lrows rrows i j keep width) = length lrows
  ↔ ∀ l, l ∈ lrows → length (matches rrows j (cell l i)) ≤ 1.
Proof.
  induction lrows as [|l lrows IH].
  - split; [|done]. intros _ l Hl. by apply elem_of_nil in Hl.
  - pose proof (join_rows_length_ge lrows) as Hge.
    rewrite join_rows_cons, length_app, join_row_length. simpl. split.
    + intros Hlen l' [->|Hl']%elem_of_cons; [lia|].
      apply IH; [lia|done].
    + intros Hall.
      assert (length (matches rrows j (cell l i)) ≤ 1) by (apply Hall; by left).
      assert (length (join_rows lrows rrows i j keep width) = length lrows) as ->.
      { apply IH. intros l' Hl'. apply Hall. by right. }
      lia.
Qed.

(** When no left row has two matches, the rows of the result are the left
    rows, position by position. *)
Lemma join_rows_lookup lrows p l :
  (∀ l', l' ∈ lrows → length (matches rrows j (cell l' i)) ≤ 1) →
  lrows !! p = Some l →
  join_rows lrows rrows i j keep width !! p
  = Some (match matches rrows j (cell l i) with
          | [] => l ++ replicate width VNaN
          | r :: _ => l ++ keep r
          end).
Proof.
  revert p. induction lrows as [|l0 lrows IH]; intros p Hall Hp; [done|].
  rewrite join_rows_cons.
  assert (length (matches rrows j (cell l0 i)) ≤ 1) as H0 by (apply Hall; by left).
  assert (∃ x, join_row rrows i j keep width l0 = [x]
               ∧ x = match matches rrows j (cell l0 i) with
                     | [] => l0 ++ replicate width VNaN
                     | r :: _ => l0 ++ keep r
                     end) as (x & -> & Hx).
  { unfold join_row. destruct (matches rrows j (cell l0 i)) as [|r [|r' ms]];
      simpl in *; [by eexists..|lia]. }
  destruct p as [|p]; simpl in *.
  - injection Hp as <-. by rewrite Hx.
  - apply IH; [|done]. intros l' Hl'. apply Hall. by right.
Qed.

Lemma join_rows_prefix lrows row :
  row ∈ join_rows lrows rrows i j keep width →
  ∃ l, l ∈ lrows ∧ l `prefix_of` row.
Proof.
  induction lrows as [|l lrows IH]; [by intros ?%elem_of_nil|].
  rewrite join_rows_cons, elem_of_app. intros [Hin|Hin].
  - exists l. split; [by left|]. unfold join_row in Hin.
    destruct (matches rrows j (cell l i)) as [|r ms].
    + apply list_elem_of_singleton in Hin as ->. by apply prefix_app_r.
    + apply list_elem_of_In, in_map_iff in Hin as (r' & <- & _). by apply prefix_app_r.
  - destruct (IH Hin) as (l' & Hl' & Hpre). exists l'. split; [by right|done].
Qed.

End Join.

Lemma occurrences_NoDup {A} `{EqDecision A} (x : A) l : NoDup l → occurrences x l ≤ 1.
Proof.
  induction 1 as [|y l Hy Hl IH]; [unfold occurrences; simpl; lia|].
  rewrite occurrences_cons. destruct (decide (y = x)) as [->|Hne]; [|done].
  apply occurrences_pos_not in Hy. lia.
Qed.

Lemma matches_length rrows j k :
  length (matches rrows j k) = occurrences k (map (λ r, cell r j) rrows).
Proof.
  unfold matches, occurrences. induction rrows as [|r rrows IH]; [done|]. simpl.
  destruct (decide (cell r j = k)) as [E|E].
  - rewrite !filter_cons_True by done. simpl. by rewrite IH.
  - by rewrite !filter_cons_False.
Qed.

Lemma matches_unique_keys s j k :
  rectangular s → j < length (columns s) → NoDup (normalized_keys s j) →
  length (matches (rows (normalized s j)) j k) ≤ 1.
Proof.
  intros Hrect Hj Hnd. rewrite matches_length.
  change (map (λ r, cell r j) (rows (normalized s j)))
    with (column_at (normalized s j) j).
  rewrite column_at_normalized by done.
  apply occurrences_NoDup. by apply (NoDup_fmap_2 VStr).
Qed.

(** ** A merge that succeeds *)

Lemma pd_merge_normalized b s key_base key_new i j :
  get_indexer_for (columns b) key_base = [i] →
  get_indexer_for (columns s) key_new = [j] →
  pd_merge (normalized b i) (normalized s j) key_base key_new (merge_suffix key_new)
  = match suffix_clashes b s key_base key_new j with
    | [] => inr (merged_frame b s key_base key_new i j)
    | dups => inl (MergeError dups)
    end.
Proof.
  intros Hi Hj. unfold pd_merge, suffix_clashes, merged_frame. simpl.
  by rewrite Hi, Hj.
Qed.

Lemma merge_datasets_success
    (w : world) (base_df new_df : ref) (key_base key_new : string)
    (b s : DataFrame) (i j : nat) :
  base_df ≠ new_df →
  heap w !! base_df = Some b →
  heap w !! new_df = Some s →
  rectangular s →
  get_indexer_for (columns b) key_base = [i] →
  get_indexer_for (columns s) key_new = [j] →
  NoDup (normalized_keys s j) →
  suffix_clashes b s key_base key_new j = [] →
  merge_datasets base_df new_df key_base key_new w
  = (inr (S (length (heap w))),
     {| heap := checked_heap (heap w) base_df new_df b s i j
                ++ [merged_frame b s key_base key_new i j];
        shown := shown w |}).
Proof.
  intros Hd Hb Hn Hrect Hi Hj Hnd Hclash.
  destruct (duplicate_strings (normalized_keys s j)) as (ds & Hds & _ & Hin).
  assert (ds = []) as ->.
  { destruct ds as [|k ds]; [done|]. exfalso.
    assert (2 ≤ occurrences k (normalized_keys s j)) by (apply Hin; by left).
    pose proof (occurrences_NoDup k _ Hnd). lia. }
  unfold merge_datasets.
  rewrite try_except_eval, (merge_body_eval _ _ _ _ _ b s i j) by done.
  rewrite Hds. rewrite bool_decide_false by (simpl; lia).
  by rewrite (pd_merge_normalized _ _ _ _ _ _ Hi Hj), Hclash.
Qed.



(** ** The columns of the merged table *)

Lemma string_length_app (s1 s2 : string) :
  String.length (s1 +:+ s2) = String.length s1 + String.length s2.
Proof. induction s1 as [|c s1 IH]; simpl; [done|]. by rewrite IH. Qed.

Lemma suffixed_label_ne (c k : string) : c +:+ merge_suffix k ≠ k.
Proof.
  intros E. apply (f_equal String.length) in E.
  unfold merge_suffix in E. rewrite !string_length_app in E. simpl in E. lia.
Qed.

Lemma indexer_from_app n l1 l2 k :
  indexer_from n (l1 ++ l2) k
  = indexer_from n l1 k ++ indexer_from (n + length l1) l2 k.
Proof.
  revert n. induction l1 as [|c l1 IH]; intros n; simpl.
  - by rewrite Nat.add_0_r.
  - rewrite IH. replace (S n + length l1) with (n + S (length l1)) by lia.
    by case_bool_decide.
Qed.

Lemma indexer_from_absent n l k : k ∉ l → indexer_from n l k = [].
Proof.
  revert n. induction l as [|c l IH]; intros n Hk; simpl; [done|].
  rewrite bool_decide_false.
  - apply IH. intros Hin. apply Hk. by right.
  - intros ->. apply Hk. by left.
Qed.

Lemma right_labels_lookup lcols rcols rsuffix q c :
  rcols !! q = Some c →
  right_labels lcols rcols rsuffix !! q
  = Some (if bool_decide (c ∈ lcols) then c +:+ rsuffix else c).
Proof.
  intros Hq. unfold right_labels.
  change (map ?f rcols) with (f <$> rcols).
  by rewrite list_lookup_fmap, Hq.
Qed.

Lemma key_not_in_right_labels lcols rcols k :
  k ∈ lcols → k ∉ right_labels lcols rcols (merge_suffix k).
Proof.
  intros Hk Hin. unfold right_labels in Hin.
  apply list_elem_of_In, in_map_iff in Hin as (c & Hc & _).
  case_bool_decide as Hcl.
  - by apply suffixed_label_ne in Hc.
  - by subst.
Qed.

(** C5, as the code has it.  In the table of a merge that succeeds, the
    base columns keep their positions, labels and values; every secondary
    column that is kept follows them, with the suffix [_<key_new>_merge]
    appended exactly when its label is also a base label.  Join keys with
    different labels are both kept.  Join keys with the same label are not:
    the secondary key column is left out and the result has exactly one
    column with that label, the base's. *)
Theorem merge_column_names
    (w : world) (base_df new_df : ref) (key_base key_new : string)
    (b s : DataFrame) (i j : nat) :
  base_df ≠ new_df →
  heap w !! base_df = Some b →
  heap w !! new_df = Some s →
  rectangular s →
  get_indexer_for (columns b) key_base = [i] →
  get_indexer_for (columns s) key_new = [j] →
  NoDup (normalized_keys s j) →
  suffix_clashes b s key_base key_new j = [] →
  ∃ m : DataFrame,
    merge_datasets base_df new_df key_base key_new w
    = (inr (S (length (heap w))),
       {| heap := checked_heap (heap w) base_df new_df b s i j ++ [m];
          shown := shown w |})
    ∧ (∀ p c, columns b !! p = Some c → columns m !! p = Some c)
    ∧ (∀ row, row ∈ rows m → ∃ l, l ∈ rows (normalized b i) ∧ l `prefix_of` row)
    ∧ (∀ q c,
         right_kept key_base key_new j (columns s) !! q = Some c →
         columns m !! (length (columns b) + q)
         = Some (if bool_decide (c ∈ columns b) then c +:+ merge_suffix key_new else c))
    ∧ length (columns m)
      = length (columns b) + length (right_kept key_base key_new j (columns s))
    ∧ (key_base ≠ key_new →
         right_kept key_base key_new j (columns s) = columns s
         ∧ columns m !! i = Some key_base
         ∧ columns m !! (length (columns b) + j)
           = Some (if bool_decide (key_new ∈ columns b)
                   then key_new +:+ merge_suffix key_new else key_new))
    ∧ (key_base = key_new →
         right_kept key_base key_new j (columns s) = delete j (columns s)
         ∧ get_indexer_for (columns m) key_base = [i]).
Proof.
  intros Hd Hb Hn Hrect Hi Hj Hnd Hclash.
  destruct (get_indexer_for_singleton _ _ _ Hi) as [Hib Hilt].
  destruct (get_indexer_for_singleton _ _ _ Hj) as [Hjs Hjlt].
  exists (merged_frame b s key_base key_new i j).
  split; [by apply merge_datasets_success|].
  unfold merged_frame. cbn [columns rows].
  assert (∀ q c,
            right_kept key_base key_new j (columns s) !! q = Some c →
            (columns b ++ right_labels (columns b)
                            (right_kept key_base key_new j (columns s))
                            (merge_suffix key_new)) !! (length (columns b) + q)
            = Some (if bool_decide (c ∈ columns b)
                    then c +:+ merge_suffix key_new else c)) as Hright.
  { intros q c Hq. rewrite lookup_app_r by lia.
    replace (length (columns b) + q - length (columns b)) with q by lia.
    by apply right_labels_lookup. }
  repeat split.
  - intros p c Hp. by apply lookup_app_l_Some.
  - apply join_rows_prefix.
  - exact Hright.
  - unfold right_labels. by rewrite length_app, length_map.
  - unfold right_kept. by rewrite bool_decide_false.
  - by apply lookup_app_l_Some.
  - apply Hright. unfold right_kept. by rewrite bool_decide_false.
  - unfold right_kept. by rewrite bool_decide_true.
  - subst key_new. unfold get_indexer_for in *.
    rewrite indexer_from_app, Hi, indexer_from_absent; [done|].
    apply key_not_in_right_labels. apply list_elem_of_lookup. by exists i.
Qed.

Lemma merge_column_names_witness :
  let b := mkDataFrame ["id"; "score"] [[VInt 1; VInt 7]] in
  let s := mkDataFrame ["k"; "score"] [[VStr "1"; VInt 5]] in
  let w := mkWorld [b; s] [] in
  ∃ m : DataFrame,
    merge_datasets 0 1 "id" "k" w
    = (inr (S (length (heap w))),
       {| heap := checked_heap (heap w) 0 1 b s 0 0 ++ [m]; shown := shown w |})
    ∧ (∀ p c, columns b !! p = Some c → columns m !! p = Some c)
    ∧ (∀ row, row ∈ rows m → ∃ l, l ∈ rows (normalized b 0) ∧ l `prefix_of` row)
    ∧ (∀ q c,
         right_kept "id" "k" 0 (columns s) !! q = Some c →
         columns m !! (length (columns b) + q)
         = Some (if bool_decide (c ∈ columns b) then c +:+ merge_suffix "k" else c))
    ∧ length (columns m) = length (columns b) + length (right_kept "id" "k" 0 (columns s))
    ∧ ("id" ≠ "k" →
         right_kept "id" "k" 0 (columns s) = columns s
         ∧ columns m !! 0 = Some "id"
         ∧ columns m !! (length (columns b) + 0)
           = Some (if bool_decide ("k" ∈ columns b) then "k" +:+ merge_suffix "k" else "k"))
    ∧ ("id" = "k" →
         right_kept "id" "k" 0 (columns s) = delete 0 (columns s)
         ∧ get_indexer_for (columns m) "id" = [0]).
Proof.
  intros b s w.
  apply (merge_column_names w 0 1 "id" "k" b s 0 0).
  - lia.
  - reflexivity.
  - reflexivity.
  - repeat constructor.
  - reflexivity.
  - reflexivity.
  - vm_compute. repeat constructor. intros H. inversion H.
  - reflexivity.
Defined.

(** C5 as stated fails: with join keys of the same label the secondary key
    column is not kept, and the result has a single column with that label. *)
Lemma merge_same_key_label_single_column :
  let b := mkDataFrame ["id"; "name"] [[VStr "1"; VStr "x"]] in
  let s := mkDataFrame ["id"; "score"] [[VStr " 1 "; VInt 10]] in
  ∃ w' m,
    merge_datasets 0 1 "id" "id" (mkWorld [b; s] []) = (inr 3, w')
    ∧ shown w' = []
    ∧ heap w' !! 3 = Some m
    ∧ m = mkDataFrame ["id"; "name"; "score"] [[VStr "1"; VStr "x"; VInt 10]]
    ∧ get_indexer_for (columns m) "id" = [0]
    ∧ length (columns m) ≠ length (columns b) + length (columns s).
Proof.
  do 2 eexists. split; [vm_compute; reflexivity|].
  repeat split. vm_compute. lia.
Qed.

(** ** A merge that fails *)

Lemma merge_body_base_key_raises w base_df new_df key_base key_new b e :
  heap w !! base_df = Some b →
  normalized_key b key_base = inl e →
  merge_body base_df new_df key_base key_new w = (inl e, w).
Proof.
  intros Hb He. unfold merge_body.
  by rewrite bind_eval, (normalize_inplace_raise _ _ _ _ _ Hb He).
Qed.

Lemma merge_body_new_key_raises w base_df new_df key_base key_new b s i e :
  base_df ≠ new_df →
  heap w !! base_df = Some b →
  heap w !! new_df = Some s →
  get_indexer_for (columns b) key_base = [i] →
  normalized_key s key_new = inl e →
  merge_body base_df new_df key_base key_new w
  = (inl e, {| heap := <[base_df := normalized b i]> (heap w); shown := shown w |}).
Proof.
  intros Hd Hb Hn Hi He. unfold merge_body.
  rewrite bind_eval, (normalize_inplace_ok _ _ _ _ _ Hb Hi).
  rewrite bind_eval, (normalize_inplace_raise _ _ _ s e); [done| |done].
  simpl. by rewrite list_lookup_insert_ne.
Qed.

(** Where an exception raised by the body of the [try] leaves the heap: the
    base table is either untouched or has its key column normalized. *)
Lemma merge_body_raises w base_df new_df key_base key_new b s e w1 :
  base_df ≠ new_df →
  heap w !! base_df = Some b →
  heap w !! new_df = Some s →
  rectangular s →
  merge_body base_df new_df key_base key_new w = (inl e, w1) →
  is_Exception e = true →
  shown w1 = shown w
  ∧ heap w1 !! base_df
    = Some (match get_indexer_for (columns b) key_base with
            | [i] => normalized b i
            | _ => b
            end).
Proof.
  intros Hd Hb Hn Hrect Hbody He.
  apply lookup_lt_Some in Hb as Hblt.
  destruct (get_indexer_for (columns b) key_base) as [|i [|i' ixs]] eqn:Hi.
  - rewrite (merge_body_base_key_raises _ _ _ _ _ b (KeyError key_base)) in Hbody;
      [|done|by apply normalized_key_absent].
    by injection Hbody as _ <-.
  - assert (∀ e', normalized_key s key_new = inl e' →
              shown w1 = shown w ∧ heap w1 !! base_df = Some (normalized b i)) as Hraise.
    { intros e' He'.
      rewrite (merge_body_new_key_raises _ _ _ _ _ b s i e') in Hbody by done.
      injection Hbody as _ <-. split; [done|]. simpl.
      by rewrite list_lookup_insert_eq. }
    destruct (get_indexer_for (columns s) key_new) as [|j [|j' jxs]] eqn:Hj.
    + eapply Hraise. by apply normalized_key_absent.
    + rewrite (merge_body_eval _ _ _ _ _ b s i j) in Hbody by done.
      pose proof (checked_heap_base w base_df new_df b s i j Hd Hb) as Hh.
      case_bool_decide.
      * destruct (py_join _ _); injection Hbody as <- <-; [done|discriminate].
      * destruct (pd_merge _ _ _ _ _); [|discriminate].
        by injection Hbody as <- <-.
    + eapply Hraise. by eapply normalized_key_repeated.
  - rewrite (merge_body_base_key_raises _ _ _ _ _ b
               (AttributeError "'DataFrame' object has no attribute 'str'")) in Hbody;
      [|done|by eapply normalized_key_repeated].
    by injection Hbody as _ <-.
Qed.

(** C4, as the code has it.  When the body of the [try] raises an
    [Exception], [merge_datasets] shows "Merge failed: " with the exception
    and returns the base table itself, so the workflow goes on with it.  The
    table is the one passed in when its key column could not be read;
    otherwise its key column has already been cast and trimmed in place. *)
Theorem merge_failure_returns_base
    (w : world) (base_df new_df : ref) (key_base key_new : string)
    (b s : DataFrame) (e : exn) (w1 : world) :
  base_df ≠ new_df →
  heap w !! base_df = Some b →
  heap w !! new_df = Some s →
  rectangular s →
  merge_body base_df new_df key_base key_new w = (inl e, w1) →
  is_Exception e = true →
  let w' := {| heap := heap w1;
               shown := shown w ++ [mkMessage Error "Merge failed: " (Some e)] |} in
  merge_datasets base_df new_df key_base key_new w = (inr base_df, w')
  ∧ (∀ (B : Type) (next : ref → M B),
       (merge_datasets base_df new_df key_base key_new ≫= next) w = next base_df w')
  ∧ heap w' !! base_df
    = Some (match get_indexer_for (columns b) key_base with
            | [i] => normalized b i
            | _ => b
            end).
Proof.
  intros Hd Hb Hn Hrect Hbody He w'.
  destruct (merge_body_raises _ _ _ _ _ _ _ _ _ Hd Hb Hn Hrect Hbody He) as [Hshown Hbase].
  assert (merge_datasets base_df new_df key_base key_new w = (inr base_df, w')) as Heq.
  { unfold merge_datasets. rewrite try_except_eval, Hbody, He.
    unfold st_error. rewrite bind_st_show. subst w'. by rewrite Hshown. }
  split; [done|]. split; [|done].
  intros B next. by rewrite bind_eval, Heq.
Qed.

Lemma merge_failure_returns_base_witness :
  let b := mkDataFrame ["id"] [[VInt 1]] in
  let s := mkDataFrame ["k"] [[VStr "1"]] in
  let w := mkWorld [b; s] [] in
  let w1 := mkWorld [mkDataFrame ["id"] [[VStr "1"]]; s] [] in
  let w' := {| heap := heap w1;
               shown := shown w ++ [mkMessage Error "Merge failed: " (Some (KeyError "zz"))] |} in
  merge_datasets 0 1 "id" "zz" w = (inr 0, w')
  ∧ (∀ (B : Type) (next : ref → M B),
       (merge_datasets 0 1 "id" "zz" ≫= next) w = next 0 w')
  ∧ heap w' !! 0
    = Some (match get_indexer_for (columns b) "id" with
            | [i] => normalized b i
            | _ => b
            end).
Proof.
  intros b s w w1.
  apply (merge_failure_returns_base w 0 1 "id" "zz" b s (KeyError "zz") w1).
  - lia.
  - reflexivity.
  - reflexivity.
  - repeat constructor.
  - reflexivity.
  - reflexivity.
Defined.

(** C4 as stated fails: the secondary table has no column "zz", the merge
    fails, and the base table that comes back is not the one passed in: its
    key " 1 " is now "1". *)
Lemma merge_failure_changes_base :
  let b := mkDataFrame ["id"] [[VStr " 1 "]] in
  let s := mkDataFrame ["k"] [[VStr "1"]] in
  let w := mkWorld [b; s] [] in
  ∃ w', merge_datasets 0 1 "id" "zz" w = (inr 0, w')
        ∧ shown w' = [mkMessage Error "Merge failed: " (Some (KeyError "zz"))]
        ∧ heap w' !! 0 = Some (mkDataFrame ["id"] [[VStr "1"]])
        ∧ heap w' !! 0 ≠ heap w !! 0.
Proof.
  eexists. split; [vm_compute; reflexivity|]. repeat split. discriminate.
Qed.

(** ** The row cleaner *)

Lemma dropna_completion df :
  "completion %" ∈ columns df → dropna df "completion %" = inr (cleaned df).
Proof.
  intros Hin. unfold dropna, cleaned.
  destruct (get_indexer_for (columns df) "completion %") as [|i ixs] eqn:E; [|done].
  by apply get_indexer_for_nil in E.
Qed.

Lemma clean_data_absent w r df file_name :
  heap w !! r = Some df →
  "completion %" ∉ columns df →
  clean_data (Some r) file_name w = (inr r, w).
Proof.
  intros Hr Hout. unfold clean_data.
  rewrite (bind_deref _ _ _ df) by done. by rewrite bool_decide_false.
Qed.

Lemma clean_data_present w r df file_name :
  heap w !! r = Some df →
  "completion %" ∈ columns df →
  clean_data (Some r) file_name w
  = (inr (length (heap w)),
     {| heap := heap w ++ [cleaned df];
        shown := shown w ++ [cleaned_info file_name df] |}).
Proof.
  intros Hr Hin. unfold clean_data.
  rewrite (bind_deref _ _ _ df) by done. rewrite bool_decide_true by done.
  by rewrite (dropna_completion _ Hin), bind_lift_inr, bind_alloc.
Qed.

Lemma clean_data_None w file_name :
  clean_data None file_name w
  = (inr (length (heap w)),
     {| heap := heap w ++ [empty_frame];
        shown := shown w ++
          [mkMessage Warning
             ("Skipping cleaning for " +:+ file_name +:+ ": file could not be loaded.")
             None] |}).
Proof. reflexivity. Qed.

Lemma filter_idemp {A} (P : A → Prop) `{!∀ x, Decision (P x)} (l : list A) :
  filter P (filter P l) = filter P l.
Proof.
  induction l as [|x l IH]; [done|].
  destruct (decide (P x)) as [Hx|Hx].
  - rewrite !filter_cons_True by done. by rewrite IH.
  - by rewrite !filter_cons_False.
Qed.

Lemma cleaned_idemp df : cleaned (cleaned df) = cleaned df.
Proof.
  unfold cleaned. simpl. f_equal. apply filter_idemp.
Qed.

Lemma lookup_snoc {A} (l : list A) (x : A) : (l ++ [x]) !! length l = Some x.
Proof. rewrite lookup_app_r by done. by rewrite Nat.sub_diag. Qed.

(** C7.  Cleaning the table that [clean_data] returned gives a table equal
    to it, whatever the file labels; this also holds for the empty table
    made for a file that could not be loaded. *)
Theorem clean_data_idempotent (w : world) (df : option ref) (label label' : string) :
  (∀ r, df = Some r → is_Some (heap w !! r)) →
  ∃ (r1 r2 : ref) (w1 w2 : world) (t : DataFrame),
    clean_data df label w = (inr r1, w1)
    ∧ clean_data (Some r1) label' w1 = (inr r2, w2)
    ∧ heap w1 !! r1 = Some t
    ∧ heap w2 !! r2 = Some t.
Proof.
  intros Hvalid. destruct df as [r|].
  - destruct (Hvalid r eq_refl) as [d Hd].
    destruct (decide ("completion %" ∈ columns d)) as [Hin|Hout].
    + eexists _, _, _, _, (cleaned d).
      split; [by apply clean_data_present|].
      split; [apply (clean_data_present _ _ (cleaned d)); [apply lookup_snoc|done]|].
      split; [apply lookup_snoc|].
      cbn [heap]. rewrite cleaned_idemp. apply lookup_snoc.
    + exists r, r, w, w, d.
      split; [by apply (clean_data_absent _ _ d)|].
      split; [by apply (clean_data_absent _ _ d)|]. done.
  - eexists _, _, _, _, empty_frame.
    split; [apply clean_data_None|].
    split; [apply (clean_data_absent _ _ empty_frame); [apply lookup_snoc|]|].
    { simpl. apply not_elem_of_nil. }
    split; apply lookup_snoc.
Qed.

Lemma clean_data_idempotent_witness :
  let d := mkDataFrame ["a"; "completion %"] [[VInt 1; VNaN]; [VInt 2; VInt 3]] in
  ∃ (r1 r2 : ref) (w1 w2 : world) (t : DataFrame),
    clean_data (Some 0) "f.csv" (mkWorld [d] []) = (inr r1, w1)
    ∧ clean_data (Some r1) "g.csv" w1 = (inr r2, w2)
    ∧ heap w1 !! r1 = Some t
    ∧ heap w2 !! r2 = Some t.
Proof.
  intros d.
  apply (clean_data_idempotent (mkWorld [d] []) (Some 0) "f.csv" "g.csv").
  intros r [= <-]. by exists d.
Defined.

(** C8.  On a table without a column labelled "completion %",
    [clean_data] returns the table it was given, shows nothing and changes
    nothing, so the table has the rows it had. *)
Theorem clean_data_without_completion
    (w : world) (r : ref) (df : DataFrame) (label : string) :
  heap w !! r = Some df →
  "completion %" ∉ columns df →
  clean_data (Some r) label w = (inr r, w).
Proof. apply clean_data_absent. Qed.

Lemma clean_data_without_completion_witness :
  let d := mkDataFrame ["id"; "score"] [[VInt 1; VNaN]; [VNaN; VInt 3]] in
  clean_data (Some 0) "f.csv" (mkWorld [d] []) = (inr 0, mkWorld [d] []).
Proof.
  intros d.
  apply (clean_data_without_completion (mkWorld [d] []) 0 d "f.csv").
  - reflexivity.
  - intros H. repeat (apply elem_of_cons in H as [H|H]; [discriminate|]).
    by apply elem_of_nil in H.
Defined.

(** C10.  On a table with a column labelled "completion %", [clean_data]
    returns a new table and leaves the one it was given as it was.  The new
    table has the same columns; its rows are rows of the input, whole and
    in the input's order: exactly those without a missing "completion %". *)
Theorem clean_data_only_removes_rows
    (w : world) (r : ref) (df : DataFrame) (label : string) :
  heap w !! r = Some df →
  "completion %" ∈ columns df →
  ∃ (df' : DataFrame) (w' : world),
    clean_data (Some r) label w = (inr (length (heap w)), w')
    ∧ length (heap w) ≠ r
    ∧ heap w' !! r = Some df
    ∧ heap w' !! length (heap w) = Some df'
    ∧ columns df' = columns df
    ∧ rows df' `sublist_of` rows df
    ∧ ∀ row, row ∈ rows df' ↔ row ∈ rows df ∧ completion_known df row.
Proof.
  intros Hr Hin. exists (cleaned df). eexists.
  split; [by apply clean_data_present|].
  apply lookup_lt_Some in Hr as Hlt. cbn [heap].
  split; [lia|]. split; [by apply lookup_app_l_Some|].
  split; [apply lookup_snoc|]. split; [done|].
  unfold cleaned. cbn [rows]. split; [apply sublist_filter|].
  intros row. rewrite list_elem_of_filter. unfold completion_known. tauto.
Qed.

Lemma clean_data_only_removes_rows_witness :
  let d := mkDataFrame ["a"; "completion %"] [[VInt 1; VNaN]; [VInt 2; VInt 3]] in
  let w := mkWorld [d] [] in
  ∃ (df' : DataFrame) (w' : world),
    clean_data (Some 0) "f.csv" w = (inr (length (heap w)), w')
    ∧ length (heap w) ≠ 0
    ∧ heap w' !! 0 = Some d
    ∧ heap w' !! length (heap w) = Some df'
    ∧ columns df' = columns d
    ∧ rows df' `sublist_of` rows d
    ∧ ∀ row, row ∈ rows df' ↔ row ∈ rows d ∧ completion_known d row.
Proof.
  intros d w.
  apply (clean_data_only_removes_rows w 0 d "f.csv").
  - reflexivity.
  - right. left.
Defined.

(** ** Column labels after loading *)

Module StrFacts.
Import Str.

Lemma lower_char_idemp c : lower_char (lower_char c) = lower_char c.
Proof. destruct c as [[] [] [] [] [] [] [] []]; reflexivity. Qed.

Lemma lower_idemp s : lower (lower s) = lower s.
Proof. induction s as [|c s IH]; simpl; [done|]. by rewrite lower_char_idemp, IH. Qed.

Lemma lower_lstrip s : lower s = s → lower (lstrip s) = lstrip s.
Proof.
  induction s as [|c s IH]; simpl; [done|]. intros [= Hc Hs].
  destruct (isspace c); [by apply IH|]. simpl. by rewrite Hc, Hs.
Qed.

Lemma lower_rstrip s : lower s = s → lower (rstrip s) = rstrip s.
Proof.
  induction s as [|c s IH]; simpl; [done|]. intros [= Hc Hs].
  specialize (IH Hs). destruct (rstrip s) as [|c' r].
  - destruct (isspace c); simpl; [done|]. by rewrite Hc.
  - simpl in *. by rewrite Hc, IH.
Qed.

Lemma rstrip_nonspace c s : isspace c = false → rstrip (String c s) = String c (rstrip s).
Proof. intros Hc. simpl. destruct (rstrip s); [by rewrite Hc|done]. Qed.

Lemma rstrip_idemp s : rstrip (rstrip s) = rstrip s.
Proof.
  induction s as [|c s IH]; simpl; [done|].
  destruct (rstrip s) as [|c' r] eqn:E.
  - destruct (isspace c) eqn:Hc; simpl; [done|]. by rewrite Hc.
  - change (rstrip (String c (String c' r))) with
      (match rstrip (String c' r) with
       | EmptyString => if isspace c then EmptyString else String c EmptyString
       | r' => String c r'
       end).
    by rewrite IH.
Qed.

Lemma lstrip_head s :
  lstrip s = EmptyString ∨ ∃ c t, lstrip s = String c t ∧ isspace c = false.
Proof.
  induction s as [|c s IH]; simpl; [by left|].
  destruct (isspace c) eqn:Hc; [done|]. right. by exists c, s.
Qed.

Lemma strip_idemp s : strip (strip s) = strip s.
Proof.
  unfold strip. destruct (lstrip_head s) as [->|(c & t & -> & Hc)]; [done|].
  rewrite rstrip_nonspace by done. simpl lstrip. rewrite Hc.
  by rewrite <- rstrip_nonspace, rstrip_idemp by done.
Qed.

(** A label as [load_file] leaves it is lower-cased and trimmed. *)
Lemma loaded_label c :
  lower (strip (lower c)) = strip (lower c)
  ∧ strip (strip (lower c)) = strip (lower c).
Proof.
  split; [|apply strip_idemp].
  unfold strip. apply lower_rstrip, lower_lstrip, lower_idemp.
Qed.

End StrFacts.

(** ** The loader *)

Section LoaderProperties.

Variable read_csv : UploadedFile → res DataFrame.
Variable read_excel : UploadedFile → res DataFrame.

Lemma load_file_empty file w :
  size file = 0 → load_file read_csv read_excel file w = load_failed file (ValueError "File is empty") w.
Proof.
  intros Hsize. unfold load_file.
  rewrite try_except_eval, bind_eval, bool_decide_true by done. reflexivity.
Qed.

Lemma load_file_parser_raises file w e :
  size file ≠ 0 → read_table read_csv read_excel file = inl e → is_Exception e = true →
  load_file read_csv read_excel file w = load_failed file e w.
Proof.
  intros Hsize Hparse He. unfold load_file.
  rewrite try_except_eval, bool_decide_false by done.
  rewrite bind_ret, Hparse, bind_lift_inl, He. reflexivity.
Qed.

Lemma load_file_no_data file w df :
  size file ≠ 0 → read_table read_csv read_excel file = inr df → empty df = true →
  load_file read_csv read_excel file w = load_failed file (ValueError "No data found") w.
Proof.
  intros Hsize Hparse Hempty. unfold load_file.
  rewrite try_except_eval, bool_decide_false by done.
  rewrite bind_ret, Hparse, bind_lift_inr, bind_eval, Hempty. reflexivity.
Qed.

Lemma load_file_ok file w df :
  size file ≠ 0 → read_table read_csv read_excel file = inr df → empty df = false →
  load_file read_csv read_excel file w
  = (inr (Some (length (heap w))),
     {| heap := heap w ++
          [{| columns := map (λ c, Str.strip (Str.lower c)) (columns df);
              rows := rows df |}];
        shown := shown w |}).
Proof.
  intros Hsize Hparse Hempty. unfold load_file.
  rewrite try_except_eval, bool_decide_false by done.
  rewrite bind_ret, Hparse, bind_lift_inr, bind_eval, Hempty. reflexivity.
Qed.


End LoaderProperties.


(** * More of the program *)

(** ** The dict [file_data] *)

Lemma dict_set_keys d k v k' :
  k' ∈ dict_keys (dict_set d k v) ↔ k' = k ∨ k' ∈ dict_keys d.
Proof.
  unfold dict_keys. induction d as [|[k0 v0] d IH]; simpl.
  - rewrite list_elem_of_singleton, elem_of_nil. tauto.
  - case_bool_decide as E; simpl; rewrite !elem_of_cons.
    + subst. tauto.
    + rewrite IH. tauto.
Qed.

Lemma dict_set_NoDup_keys d k v :
  NoDup (dict_keys d) → NoDup (dict_keys (dict_set d k v)).
Proof.
  unfold dict_keys. induction d as [|[k0 v0] d IH]; simpl; intros Hnd.
  - apply NoDup_singleton.
  - apply NoDup_cons in Hnd as [Hk0 Hnd]. case_bool_decide as E; simpl.
    + subst. by apply NoDup_cons.
    + apply NoDup_cons. split; [|by apply IH].
      intros Hin. apply (dict_set_keys d k v k0) in Hin as [->|Hin]; done.
Qed.

Lemma dict_set_elem d k v k' v' :
  NoDup (dict_keys d) →
  (k', v') ∈ dict_set d k v ↔ (k' = k ∧ v' = v) ∨ (k' ≠ k ∧ (k', v') ∈ d).
Proof.
  unfold dict_keys. induction d as [|[k0 v0] d IH]; simpl; intros Hnd.
  - rewrite list_elem_of_singleton, elem_of_nil. split; [intros [= -> ->]; by left|].
    intros [[-> ->]|[_ []]]. done.
  - apply NoDup_cons in Hnd as [Hk0 Hnd]. case_bool_decide as E; rewrite !elem_of_cons.
    + subst k0. split.
      * intros [[= -> ->]|Hin]; [by left|]. destruct (decide (k' = k)) as [->|Hne].
        -- exfalso. apply Hk0. apply list_elem_of_In, in_map_iff.
           exists (k, v'). split; [done|by apply list_elem_of_In].
        -- right. split; [done|by right].
      * intros [[-> ->]|[Hne [[= -> ->]|Hin]]]; [by left|done|by right].
    + rewrite (IH Hnd). split.
      * intros [[= -> ->]|[[-> ->]|[Hne Hin]]].
        -- right. split; [done|by left].
        -- by left.
        -- right. split; [done|by right].
      * intros [[-> ->]|[Hne [[= -> ->]|Hin]]].
        -- right. by left.
        -- by left.
        -- right. right. by split.
Qed.

Lemma dict_set_NoDup_values d k v :
  NoDup (map snd d) → v ∉ map snd d → NoDup (map snd (dict_set d k v)).
Proof.
  induction d as [|[k0 v0] d IH]; simpl; intros Hnd Hv.
  - apply NoDup_singleton.
  - apply NoDup_cons in Hnd as [Hv0 Hnd]. apply not_elem_of_cons in Hv as [Hne Hv].
    case_bool_decide as E; simpl.
    + by apply NoDup_cons.
    + apply NoDup_cons. split; [|by apply IH].
      intros Hin. apply list_elem_of_In, in_map_iff in Hin as ([k1 v1] & Heq & Hin).
      simpl in Heq. subst v1. apply list_elem_of_In in Hin.
      assert (v0 = v ∨ v0 ∈ map snd d) as [->|Hold]; [|done|done].
      clear -Hin. induction d as [|[k2 v2] d IH]; simpl in *.
      * apply list_elem_of_singleton in Hin as [= _ ->]. by left.
      * case_bool_decide; apply elem_of_cons in Hin as [[= _ ->]|Hin].
        -- by left.
        -- right. right. apply list_elem_of_In, in_map_iff.
           exists (k1, v0). split; [done|by apply list_elem_of_In].
        -- right. by left.
        -- destruct (IH Hin) as [->|Hd]; [by left|right; by right].
Qed.

Lemma dict_get_elem d k v :
  NoDup (dict_keys d) → dict_get d k = inr v ↔ (k, v) ∈ d.
Proof.
  unfold dict_keys. induction d as [|[k0 v0] d IH]; simpl; intros Hnd.
  - rewrite elem_of_nil. split; [discriminate|done].
  - apply NoDup_cons in Hnd as [Hk0 Hnd]. rewrite elem_of_cons.
    case_bool_decide as E.
    + subst k0. split; [intros [= ->]; by left|].
      intros [[= ->]|Hin]; [done|]. exfalso. apply Hk0.
      apply list_elem_of_In, in_map_iff. exists (k, v).
      split; [done|by apply list_elem_of_In].
    + rewrite (IH Hnd). split; [by right|]. by intros [[= -> ->]|Hin].
Qed.

Lemma dict_get_absent d k : k ∉ dict_keys d → dict_get d k = inl (KeyError k).
Proof.
  unfold dict_keys. induction d as [|[k0 v0] d IH]; simpl; intros Hk; [done|].
  apply not_elem_of_cons in Hk as [Hne Hk]. rewrite bool_decide_false by done.
  by apply IH.
Qed.

(** ** The loading loop *)

Lemma completion_known_cleaned df r :
  completion_known (cleaned df) r ↔ completion_known df r.
Proof. reflexivity. Qed.

Lemma cleaned_rows_known df : Forall (completion_known (cleaned df)) (rows (cleaned df)).
Proof.
  apply Forall_forall. intros r Hr. unfold cleaned in Hr. simpl in Hr.
  apply list_elem_of_filter in Hr as [Hr _]. exact Hr.
Qed.

Lemma rows_known_without_completion df :
  "completion %" ∉ columns df → Forall (completion_known df) (rows df).
Proof.
  intros Hout. apply Forall_forall. intros r _. unfold completion_known.
  apply get_indexer_for_nil in Hout. by rewrite Hout.
Qed.

(** Cleaning the table that was just loaded: the result is that table or a
    new one, has the same labels and no missing "completion %". *)
Lemma clean_data_loaded h sh t label :
  ∃ c w'',
    clean_data (@Some ref (length h)) label {| heap := h ++ [t]; shown := sh |}
    = (inr c, w'')
    ∧ length h ≤ c
    ∧ (h ++ [t]) `prefix_of` heap w''
    ∧ ∃ t', heap w'' !! c = Some t'
            ∧ columns t' = columns t
            ∧ Forall (completion_known t') (rows t').
Proof.
  destruct (decide ("completion %" ∈ columns t)) as [Hin|Hout].
  - eexists _, _. split.
    { apply (clean_data_present _ _ t); [apply lookup_snoc|done]. }
    cbn [heap]. rewrite length_app. simpl. split; [lia|].
    split; [by apply prefix_app_r|].
    exists (cleaned t). split; [|split; [done|apply cleaned_rows_known]].
    replace (length h + 1) with (length (h ++ [t])) by (rewrite length_app; simpl; lia).
    apply lookup_snoc.
  - eexists _, _. split.
    { apply (clean_data_absent _ _ t); [apply lookup_snoc|done]. }
    cbn [heap]. split; [lia|]. split; [done|].
    exists t. split; [apply lookup_snoc|]. split; [done|].
    by apply rows_known_without_completion.
Qed.

Lemma file_data_ok_extend fd h h' :
  file_data_ok fd h → h `prefix_of` h' → file_data_ok fd h'.
Proof.
  intros (Hk & Hv & Ht) Hpre. split; [done|]. split; [done|].
  intros k r Hin. destruct (Ht k r Hin) as (t & Hl & Hgood).
  exists t. split; [|done]. by eapply prefix_lookup_Some.
Qed.

Lemma file_data_ok_set fd h k c t :
  file_data_ok fd h →
  (∀ k' r, (k', r) ∈ fd → r ≠ c) →
  h !! c = Some t → loaded_table t →
  file_data_ok (dict_set fd k c) h.
Proof.
  intros (Hk & Hv & Ht) Hfresh Hc Hgood. split; [by apply dict_set_NoDup_keys|].
  split.
  - apply dict_set_NoDup_values; [done|].
    intros Hin. apply list_elem_of_In, in_map_iff in Hin as ([k' r] & Heq & Hin).
    simpl in Heq. subst r. apply list_elem_of_In in Hin. by eapply Hfresh.
  - intros k' r Hin. apply dict_set_elem in Hin as [[-> ->]|[_ Hin]]; [|by apply (Ht k')|done].
    by exists t.
Qed.

Section LoadAll.

Variable read_csv : UploadedFile → res DataFrame.
Variable read_excel : UploadedFile → res DataFrame.
Hypothesis csv_raises : raises_Exception read_csv.
Hypothesis excel_raises : raises_Exception read_excel.

Lemma read_table_raises f e :
  read_table read_csv read_excel f = inl e → is_Exception e = true.
Proof.
  unfold read_table. destruct (Str.endswith _ _); [apply csv_raises|apply excel_raises].
Qed.

(** [load_file] returns a new table with normalized labels for a loadable
    file, and [None] with one error for any other. *)
Lemma load_file_outcome f w :
  (loadable read_csv read_excel f
   ∧ ∃ t, load_file read_csv read_excel f w
          = (inr (Some (length (heap w))),
             {| heap := heap w ++ [t]; shown := shown w |})
          ∧ Forall (λ c, Str.lower c = c ∧ Str.strip c = c) (columns t))
  ∨ (¬ loadable read_csv read_excel f
     ∧ ∃ e, load_file read_csv read_excel f w = load_failed f e w).
Proof.
  destruct (decide (size f = 0)) as [Hz|Hnz].
  { right. split; [by intros [? _]|]. eexists. by apply load_file_empty. }
  destruct (read_table read_csv read_excel f) as [e|df] eqn:Hparse.
  { right. split; [intros (_ & df & Hdf & _); congruence|].
    exists e. apply load_file_parser_raises; [done..|]. by eapply read_table_raises. }
  destruct (empty df) eqn:Hempty.
  { right. split; [intros (_ & df' & Hdf & He); congruence|].
    eexists. by eapply load_file_no_data. }
  left. split; [split; [done|by exists df]|].
  eexists. split; [by apply load_file_ok|]. cbn [columns].
  apply Forall_map, Forall_forall. intros c _. apply StrFacts.loaded_label.
Qed.

Lemma load_all_invariant files :
  ∀ fd w,
    file_data_ok fd (heap w) →
    ∃ fd' w',
      load_all read_csv read_excel files fd w = (inr fd', w')
      ∧ file_data_ok fd' (heap w')
      ∧ heap w `prefix_of` heap w'
      ∧ ∀ k, k ∈ dict_keys fd'
             ↔ k ∈ dict_keys fd
               ∨ ∃ f, f ∈ files ∧ loadable read_csv read_excel f ∧ name f = k.
Proof.
  induction files as [|f fs IH]; intros fd w Hok.
  - exists fd, w. split; [done|]. split; [done|]. split; [done|].
    intros k. split; [by left|]. intros [?|(f & Hf & _)]; [done|].
    by apply elem_of_nil in Hf.
  - assert (∀ r w1 res,
              load_file read_csv read_excel f w = (inr r, w1) →
              match r with
              | Some r' =>
                  (clean_data (Some r') (name f)
                   ≫= λ c, load_all read_csv read_excel fs (dict_set fd (name f) c)) w1
              | None => load_all read_csv read_excel fs fd w1
              end = res →
              load_all read_csv read_excel (f :: fs) fd w = res) as Hstep.
    { intros r w1 res Hl Hres. cbn [load_all]. rewrite bind_eval, Hl.
      by destruct r. }
    destruct (load_file_outcome f w) as [(Hload & t & Hl & Hlabels)|(Hno & e & Hl)].
    + destruct (clean_data_loaded (heap w) (shown w) t (name f))
        as (c & w'' & Hclean & Hc & Hpre & t' & Ht' & Hcols & Hrows).
      destruct (IH (dict_set fd (name f) c) w'') as (fd' & w' & Hrun & Hok' & Hpre' & Hkeys).
      { apply (file_data_ok_set _ _ _ _ t'); [| |done|].
        - eapply file_data_ok_extend; [done|].
          etrans; [|exact Hpre]. by apply prefix_app_r.
        - intros k' r Hin ->. destruct Hok as (_ & _ & Ht).
          destruct (Ht k' c Hin) as (t0 & Hl0 & _). apply lookup_lt_Some in Hl0. lia.
        - split; [by rewrite Hcols|done]. }
      exists fd', w'. split.
      { eapply Hstep; [exact Hl|]. cbv beta iota. by rewrite bind_eval, Hclean. }
      split; [done|]. split.
      { etrans; [|exact Hpre']. etrans; [|exact Hpre]. by apply prefix_app_r. }
      intros k. rewrite Hkeys, dict_set_keys. split.
      * intros [[->|Hold]|(f' & Hf' & Hl' & Hn')].
        -- right. exists f. split; [by left|done].
        -- by left.
        -- right. exists f'. split; [by right|done].
      * intros [Hold|(f' & [->|Hf']%elem_of_cons & Hl' & Hn')].
        -- left. by right.
        -- left. by left.
        -- right. by exists f'.
    + unfold load_failed in Hl.
      destruct (IH fd {| heap := heap w;
                         shown := shown w ++
                           [mkMessage Error ("Failed to load " +:+ name f +:+ ": ")
                              (Some e)] |})
        as (fd' & w' & Hrun & Hok' & Hpre' & Hkeys); [done|].
      exists fd', w'. split; [by eapply Hstep; [exact Hl|]|].
      split; [done|]. split; [done|].
      intros k. rewrite Hkeys. split.
      * intros [Hold|(f' & Hf' & Hl' & Hn')]; [by left|].
        right. exists f'. split; [by right|done].
      * intros [Hold|(f' & [->|Hf']%elem_of_cons & Hl' & Hn')]; [by left|done|].
        right. by exists f'.
Qed.

End LoadAll.

Lemma file_data_ok_nil h : file_data_ok [] h.
Proof.
  split; [constructor|]. split; [constructor|].
  intros k r Hin. by apply elem_of_nil in Hin.
Qed.

Lemma sample_read_csv_raises : raises_Exception sample_read_csv.
Proof. intros f e H. discriminate. Qed.

Lemma sample_read_excel_raises : raises_Exception sample_read_excel.
Proof. intros f e [= <-]. reflexivity. Qed.

(** X1.  Whatever is uploaded, the loading loop runs to its end when the
    parsers fail with ordinary exceptions.  [file_data] then names exactly
    the files [load_file] accepts, each name once, and the tables that
    existed before the loop are still in place. *)
Theorem load_all_names
    (read_csv read_excel : UploadedFile → res DataFrame)
    (uploaded_files : list UploadedFile) (w : world) :
  raises_Exception read_csv →
  raises_Exception read_excel →
  ∃ file_data w',
    load_all read_csv read_excel uploaded_files [] w = (inr file_data, w')
    ∧ NoDup (dict_keys file_data)
    ∧ (∀ k, k ∈ dict_keys file_data
            ↔ ∃ f, f ∈ uploaded_files ∧ loadable read_csv read_excel f ∧ name f = k)
    ∧ heap w `prefix_of` heap w'.
Proof.
  intros Hcsv Hexcel.
  destruct (load_all_invariant read_csv read_excel Hcsv Hexcel uploaded_files [] w)
    as (fd & w' & Hrun & (Hnd & _) & Hpre & Hkeys); [apply file_data_ok_nil|].
  exists fd, w'. split; [done|]. split; [done|]. split; [|done].
  intros k. rewrite Hkeys. split; [|by right].
  intros [Hin|?]; [|done]. by apply elem_of_nil in Hin.
Qed.

Lemma load_all_names_witness :
  let files := [mkFile "a.csv" 0 ""; mkFile "b.xlsx" 3 "PK."; mkFile "c.csv" 9 "x"] in
  ∃ file_data w',
    load_all sample_read_csv sample_read_excel files [] (mkWorld [] [])
    = (inr file_data, w')
    ∧ NoDup (dict_keys file_data)
    ∧ (∀ k, k ∈ dict_keys file_data
            ↔ ∃ f, f ∈ files ∧ loadable sample_read_csv sample_read_excel f ∧ name f = k)
    ∧ heap (mkWorld [] []) `prefix_of` heap w'.
Proof.
  intros files.
  apply (load_all_names sample_read_csv sample_read_excel files (mkWorld [] [])).
  - exact sample_read_csv_raises.
  - exact sample_read_excel_raises.
Defined.

(** X2.  After the loading loop two different file names never share a
    table: each name of [file_data] leads to an object of its own, so the
    tables handed to [merge_datasets] for two selected files are never the
    same object. *)
Theorem load_all_tables_distinct
    (read_csv read_excel : UploadedFile → res DataFrame)
    (uploaded_files : list UploadedFile) (w : world)
    (file_data : list (string * ref)) (w' : world) (k1 k2 : string) (r1 r2 : ref) :
  raises_Exception read_csv →
  raises_Exception read_excel →
  load_all read_csv read_excel uploaded_files [] w = (inr file_data, w') →
  dict_get file_data k1 = inr r1 →
  dict_get file_data k2 = inr r2 →
  k1 ≠ k2 →
  r1 ≠ r2 ∧ is_Some (heap w' !! r1) ∧ is_Some (heap w' !! r2).
Proof.
  intros Hcsv Hexcel Hrun H1 H2 Hne.
  destruct (load_all_invariant read_csv read_excel Hcsv Hexcel uploaded_files [] w)
    as (fd & w0 & Hrun' & (Hk & Hv & Ht) & _); [apply file_data_ok_nil|].
  rewrite Hrun in Hrun'. injection Hrun' as <- <-.
  apply dict_get_elem in H1; [|done]. apply dict_get_elem in H2; [|done].
  split; [|split].
  - intros ->. apply Hne.
    assert (∀ d : list (string * ref), NoDup (map snd d) →
              ∀ a b v, (a, v) ∈ d → (b, v) ∈ d → a = b) as Hinj.
    { clear. induction d as [|[k0 v0] d IH]; simpl; intros Hnd a b v Ha Hb.
      - by apply elem_of_nil in Ha.
      - apply NoDup_cons in Hnd as [Hv0 Hnd].
        assert (∀ x, (x, v0) ∈ d → False) as Hno.
        { intros x Hx. apply Hv0, list_elem_of_In, in_map_iff.
          exists (x, v0). split; [done|by apply list_elem_of_In]. }
        apply elem_of_cons in Ha as [Ha|Ha]; apply elem_of_cons in Hb as [Hb|Hb].
        + congruence.
        + injection Ha as -> ->. by destruct (Hno b).
        + injection Hb as -> ->. by destruct (Hno a).
        + by eapply IH. }
    by eapply Hinj.
  - destruct (Ht _ _ H1) as (t & Hl & _). by exists t.
  - destruct (Ht _ _ H2) as (t & Hl & _). by exists t.
Qed.

Lemma load_all_tables_distinct_witness :
  let files := [mkFile "a.csv" 5 "x"; mkFile "c.csv" 9 "x"] in
  1 ≠ 3
  ∧ is_Some (heap (load_all sample_read_csv sample_read_excel files []
                     (mkWorld [] [])).2 !! 1)
  ∧ is_Some (heap (load_all sample_read_csv sample_read_excel files []
                     (mkWorld [] [])).2 !! 3).
Proof.
  intros files.
  apply (load_all_tables_distinct sample_read_csv sample_read_excel files (mkWorld [] [])
           [("a.csv", 1); ("c.csv", 3)]
           (load_all sample_read_csv sample_read_excel files [] (mkWorld [] [])).2
           "a.csv" "c.csv" 1 3).
  - exact sample_read_csv_raises.
  - exact sample_read_excel_raises.
  - reflexivity.
  - reflexivity.
  - reflexivity.
  - discriminate.
Defined.

(** X3.  Every table the loading loop stores in [file_data] has lower-cased,
    trimmed labels and no row with a missing "completion %". *)
Theorem load_all_tables_cleaned
    (read_csv read_excel : UploadedFile → res DataFrame)
    (uploaded_files : list UploadedFile) (w : world)
    (file_data : list (string * ref)) (w' : world) (k : string) (r : ref) :
  raises_Exception read_csv →
  raises_Exception read_excel →
  load_all read_csv read_excel uploaded_files [] w = (inr file_data, w') →
  dict_get file_data k = inr r →
  ∃ t, heap w' !! r = Some t
       ∧ Forall (λ c, Str.lower c = c ∧ Str.strip c = c) (columns t)
       ∧ Forall (completion_known t) (rows t).
Proof.
  intros Hcsv Hexcel Hrun Hget.
  destruct (load_all_invariant read_csv read_excel Hcsv Hexcel uploaded_files [] w)
    as (fd & w0 & Hrun' & (Hk & Hv & Ht) & _); [apply file_data_ok_nil|].
  rewrite Hrun in Hrun'. injection Hrun' as <- <-.
  apply dict_get_elem in Hget; [|done].
  destruct (Ht _ _ Hget) as (t & Hl & Hlab & Hrows). by exists t.
Qed.

Lemma load_all_tables_cleaned_witness :
  let files := [mkFile "a.csv" 5 "x"; mkFile "c.csv" 9 "x"] in
  ∃ t, heap (load_all sample_read_csv sample_read_excel files [] (mkWorld [] [])).2 !! 3
       = Some t
       ∧ Forall (λ c, Str.lower c = c ∧ Str.strip c = c) (columns t)
       ∧ Forall (completion_known t) (rows t).
Proof.
  intros files.
  apply (load_all_tables_cleaned sample_read_csv sample_read_excel files (mkWorld [] [])
           [("a.csv", 1); ("c.csv", 3)]
           (load_all sample_read_csv sample_read_excel files [] (mkWorld [] [])).2
           "c.csv" 3).
  - exact sample_read_csv_raises.
  - exact sample_read_excel_raises.
  - reflexivity.
  - reflexivity.
Defined.

(** ** Every way [merge_datasets] can end *)

Lemma NoDup_or_repeated (l : list string) :
  NoDup l ∨ ∃ k, 2 ≤ occurrences k l.
Proof.
  induction l as [|x l [IH|[k IH]]].
  - left. constructor.
  - destruct (decide (x ∈ l)) as [Hin|Hout].
    + right. exists x. rewrite occurrences_cons, decide_True by done.
      apply occurrences_pos in Hin. lia.
    + left. by constructor.
  - right. exists k. rewrite occurrences_cons. destruct (decide (x = k)); lia.
Qed.

Lemma merge_datasets_fallback w base_df new_df key_base key_new e w1 :
  merge_body base_df new_df key_base key_new w = (inl e, w1) →
  is_Exception e = true →
  merge_datasets base_df new_df key_base key_new w
  = (inr base_df,
     {| heap := heap w1;
        shown := shown w1 ++ [mkMessage Error "Merge failed: " (Some e)] |}).
Proof.
  intros Hbody He. unfold merge_datasets.
  rewrite try_except_eval, Hbody, He. unfold st_error. by rewrite bind_st_show.
Qed.

Lemma merge_datasets_clash
    (w : world) (base_df new_df : ref) (key_base key_new : string)
    (b s : DataFrame) (i j : nat) (d : string) (ds : list string) :
  base_df ≠ new_df →
  heap w !! base_df = Some b →
  heap w !! new_df = Some s →
  rectangular s →
  get_indexer_for (columns b) key_base = [i] →
  get_indexer_for (columns s) key_new = [j] →
  NoDup (normalized_keys s j) →
  suffix_clashes b s key_base key_new j = d :: ds →
  merge_datasets base_df new_df key_base key_new w
  = (inr base_df,
     {| heap := checked_heap (heap w) base_df new_df b s i j;
        shown := shown w ++
          [mkMessage Error "Merge failed: " (Some (MergeError (d :: ds)))] |}).
Proof.
  intros Hd Hb Hn Hrect Hi Hj Hnd Hclash.
  destruct (duplicate_strings (normalized_keys s j)) as (l & Hl & _ & Hin).
  assert (l = []) as ->.
  { destruct l as [|k l]; [done|]. exfalso.
    assert (2 ≤ occurrences k (normalized_keys s j)) by (apply Hin; by left).
    pose proof (occurrences_NoDup k _ Hnd). lia. }
  rewrite (merge_datasets_fallback _ _ _ _ _ (MergeError (d :: ds))
             {| heap := checked_heap (heap w) base_df new_df b s i j;
                shown := shown w |}); [done| |done].
  rewrite (merge_body_eval _ _ _ _ _ b s i j) by done.
  rewrite Hl. rewrite bool_decide_false by (simpl; lia).
  by rewrite (pd_merge_normalized _ _ _ _ _ _ Hi Hj), Hclash.
Qed.

(** The four ways a call can end, by what it leaves in the heap. *)
Lemma merge_datasets_cases
    (w : world) (base_df new_df : ref) (key_base key_new : string)
    (b s : DataFrame) (res : exn + ref) (w' : world) :
  base_df ≠ new_df →
  heap w !! base_df = Some b →
  heap w !! new_df = Some s →
  rectangular s →
  merge_datasets base_df new_df key_base key_new w = (res, w') →
  (res = inr base_df ∧ heap w' = heap w)
  ∨ (∃ i, get_indexer_for (columns b) key_base = [i]
          ∧ res = inr base_df
          ∧ heap w' = <[base_df := normalized b i]> (heap w))
  ∨ (∃ i j, get_indexer_for (columns b) key_base = [i]
            ∧ get_indexer_for (columns s) key_new = [j]
            ∧ (res = inr base_df ∨ res = inl StopException)
            ∧ heap w' = checked_heap (heap w) base_df new_df b s i j)
  ∨ (∃ i j, get_indexer_for (columns b) key_base = [i]
            ∧ get_indexer_for (columns s) key_new = [j]
            ∧ NoDup (normalized_keys s j)
            ∧ res = inr (S (length (heap w)))
            ∧ heap w' = checked_heap (heap w) base_df new_df b s i j
                        ++ [merged_frame b s key_base key_new i j]).
Proof.
  intros Hd Hb Hn Hrect Hrun.
  destruct (get_indexer_for (columns b) key_base) as [|i [|i' ixs]] eqn:Hi.
  - left.
    rewrite (merge_datasets_fallback _ _ _ _ _ (KeyError key_base) w) in Hrun;
      [by injection Hrun as <- <-| |done].
    apply (merge_body_base_key_raises _ _ _ _ _ b); [done|by apply normalized_key_absent].
  - right.
    assert (∀ e, is_Exception e = true → normalized_key s key_new = inl e →
              res = inr base_df ∧ heap w' = <[base_df := normalized b i]> (heap w))
      as Hraise.
    { intros e He Hkey.
      rewrite (merge_datasets_fallback _ _ _ _ _ e
                 {| heap := <[base_df := normalized b i]> (heap w); shown := shown w |})
        in Hrun; [by injection Hrun as <- <-| |done].
      by apply (merge_body_new_key_raises _ _ _ _ _ b s i). }
    destruct (get_indexer_for (columns s) key_new) as [|j [|j' jxs]] eqn:Hj.
    + left. exists i. split; [done|].
      apply (Hraise (KeyError key_new)); [done|by apply normalized_key_absent].
    + right. destruct (NoDup_or_repeated (normalized_keys s j)) as [Hnd|Hrep].
      * destruct (suffix_clashes b s key_base key_new j) as [|d ds] eqn:Hclash.
        -- right. exists i, j.
           rewrite (merge_datasets_success _ _ _ _ _ b s i j) in Hrun by done.
           by injection Hrun as <- <-.
        -- left. exists i, j.
           rewrite (merge_datasets_clash _ _ _ _ _ b s i j d ds) in Hrun by done.
           injection Hrun as <- <-. split; [done|]. split; [done|]. split; [by left|done].
      * left. exists i, j.
        destruct (merge_datasets_duplicates w base_df new_df key_base key_new b s i j)
          as (dups & _ & _ & Heq); try done.
        rewrite Heq in Hrun. injection Hrun as <- <-.
        split; [done|]. split; [done|]. split; [by right|done].
    + left. exists i. split; [done|].
      apply (Hraise (AttributeError "'DataFrame' object has no attribute 'str'"));
        [done|by eapply normalized_key_repeated].
  - left.
    rewrite (merge_datasets_fallback _ _ _ _ _
               (AttributeError "'DataFrame' object has no attribute 'str'") w) in Hrun;
      [by injection Hrun as <- <-| |done].
    apply (merge_body_base_key_raises _ _ _ _ _ b); [done|by eapply normalized_key_repeated].
Qed.

Lemma cell_insert_ne' r i j v : i ≠ j → cell (<[i := v]> r) j = cell r j.
Proof. intros H. unfold cell. by rewrite list_lookup_insert_ne. Qed.

Lemma same_but_column_refl k df : same_but_column k df df.
Proof.
  split; [done|]. split; [done|]. intros p q r r' _ Hr Hr'. congruence.
Qed.

Lemma same_but_column_normalized k df i :
  columns df !! i = Some k → same_but_column k df (normalized df i).
Proof.
  intros Hi. split; [done|]. unfold normalized. cbn [rows columns].
  split; [by rewrite length_map|].
  intros p q r r' Hq Hr Hr'.
  change (map ?f (rows df)) with (f <$> rows df) in Hr'.
  rewrite list_lookup_fmap, Hr in Hr'. injection Hr' as <-.
  apply cell_insert_ne'. intros ->. done.
Qed.

Lemma merged_frame_row_count b s key_base key_new i j :
  rectangular s → j < length (columns s) → NoDup (normalized_keys s j) →
  length (rows (merged_frame b s key_base key_new i j)) = length (rows b).
Proof.
  intros Hrect Hj Hnd. unfold merged_frame. cbn [rows].
  transitivity (length (rows (normalized b i))).
  - apply join_rows_length_eq. intros l _. by apply matches_unique_keys.
  - unfold normalized. cbn [rows]. by rewrite length_map.
Qed.

(** X4.  Whenever [merge_datasets] returns, the table it returns has
    exactly as many rows as the base table: the duplicate check leaves no
    room for a base row to match twice, and a failed merge returns the base
    itself. *)
Theorem merge_keeps_row_count
    (w : world) (base_df new_df : ref) (key_base key_new : string)
    (b s : DataFrame) (r : ref) (w' : world) :
  base_df ≠ new_df →
  heap w !! base_df = Some b →
  heap w !! new_df = Some s →
  rectangular s →
  merge_datasets base_df new_df key_base key_new w = (inr r, w') →
  ∃ t, heap w' !! r = Some t ∧ length (rows t) = length (rows b).
Proof.
  intros Hd Hb Hn Hrect Hrun.
  assert (∀ i, length (rows (normalized b i)) = length (rows b)) as Hlen.
  { intros i. unfold normalized. cbn [rows]. by rewrite length_map. }
  destruct (merge_datasets_cases _ _ _ _ _ b s _ _ Hd Hb Hn Hrect Hrun)
    as [[[= ->] ->]|[(i & Hi & [= ->] & ->)|[(i & j & Hi & Hj & Hres & ->)
       |(i & j & Hi & Hj & Hnd & [= ->] & ->)]]].
  - by exists b.
  - exists (normalized b i). split; [|done].
    apply list_lookup_insert_eq. by eapply lookup_lt_Some.
  - destruct Hres as [[= ->]|[=]]. exists (normalized b i). split; [|done].
    by apply (checked_heap_base w base_df new_df b s i j).
  - exists (merged_frame b s key_base key_new i j). split.
    + rewrite <- (checked_heap_length w base_df new_df b s i j); try done.
      apply lookup_snoc.
    + apply merged_frame_row_count; [done| |done].
      by destruct (get_indexer_for_singleton _ _ _ Hj).
Qed.

Lemma merge_keeps_row_count_witness :
  let b := mkDataFrame ["id"] [[VStr "1"]; [VInt 2]; [VStr "1 "]] in
  let s := mkDataFrame ["id"; "v"] [[VStr "1"; VInt 5]; [VStr " 2 "; VInt 6]] in
  let w := mkWorld [b; s] [] in
  ∃ t, heap (merge_datasets 0 1 "id" "id" w).2 !! 3 = Some t
       ∧ length (rows t) = length (rows b).
Proof.
  intros b s w.
  apply (merge_keeps_row_count w 0 1 "id" "id" b s 3 (merge_datasets 0 1 "id" "id" w).2).
  - lia.
  - reflexivity.
  - reflexivity.
  - repeat constructor.
  - reflexivity.
Defined.

(** X5.  However a call of [merge_datasets] ends (a merged table, the
    fallback or the stop), it has changed nothing of the caller's tables
    but the cells of the two key columns: both tables keep their labels,
    their number of rows and every cell outside their key column, and
    every other table of the heap is as it was. *)
Theorem merge_touches_only_keys
    (w : world) (base_df new_df : ref) (key_base key_new : string)
    (b s : DataFrame) (res : exn + ref) (w' : world) :
  base_df ≠ new_df →
  heap w !! base_df = Some b →
  heap w !! new_df = Some s →
  rectangular s →
  merge_datasets base_df new_df key_base key_new w = (res, w') →
  ∃ b' s',
    heap w' !! base_df = Some b'
    ∧ heap w' !! new_df = Some s'
    ∧ same_but_column key_base b b'
    ∧ same_but_column key_new s s'
    ∧ ∀ r t, r ≠ base_df → r ≠ new_df → heap w !! r = Some t → heap w' !! r = Some t.
Proof.
  intros Hd Hb Hn Hrect Hrun.
  apply lookup_lt_Some in Hb as Hblt. apply lookup_lt_Some in Hn as Hnlt.
  assert (∀ i j extra r t,
            r ≠ base_df → r ≠ new_df → heap w !! r = Some t →
            (checked_heap (heap w) base_df new_df b s i j ++ extra) !! r = Some t)
    as Hother.
  { intros i j extra r t Hr1 Hr2 Hr. apply lookup_app_l_Some.
    unfold checked_heap. apply lookup_app_l_Some.
    by rewrite !list_lookup_insert_ne. }
  destruct (merge_datasets_cases _ _ _ _ _ b s _ _ Hd Hb Hn Hrect Hrun)
    as [[_ ->]|[(i & Hi & _ & ->)|[(i & j & Hi & Hj & _ & ->)
       |(i & j & Hi & Hj & _ & _ & ->)]]].
  - exists b, s. repeat split; try done; try apply same_but_column_refl.
  - exists (normalized b i), s.
    destruct (get_indexer_for_singleton _ _ _ Hi) as [Hik _].
    split; [by apply list_lookup_insert_eq|].
    split; [by rewrite list_lookup_insert_ne|].
    split; [by apply same_but_column_normalized|].
    split; [apply same_but_column_refl|].
    intros r t Hr1 Hr2 Hr. by rewrite list_lookup_insert_ne.
  - exists (normalized b i), (normalized s j).
    destruct (get_indexer_for_singleton _ _ _ Hi) as [Hik _].
    destruct (get_indexer_for_singleton _ _ _ Hj) as [Hjk _].
    split; [by apply (checked_heap_base w base_df new_df b s i j)|].
    split; [by apply (checked_heap_new w base_df new_df b s i j)|].
    split; [by apply same_but_column_normalized|].
    split; [by apply same_but_column_normalized|].
    intros r t Hr1 Hr2 Hr. specialize (Hother i j [] r t Hr1 Hr2 Hr).
    by rewrite app_nil_r in Hother.
  - exists (normalized b i), (normalized s j).
    destruct (get_indexer_for_singleton _ _ _ Hi) as [Hik _].
    destruct (get_indexer_for_singleton _ _ _ Hj) as [Hjk _].
    split; [apply lookup_app_l_Some; by apply (checked_heap_base w base_df new_df b s i j)|].
    split; [apply lookup_app_l_Some; by apply (checked_heap_new w base_df new_df b s i j)|].
    split; [by apply same_but_column_normalized|].
    split; [by apply same_but_column_normalized|].
    intros r t Hr1 Hr2 Hr. by apply Hother.
Qed.

Lemma merge_touches_only_keys_witness :
  let b := mkDataFrame ["id"; "n"] [[VStr " 1"; VStr " x "]] in
  let s := mkDataFrame ["id"; "v"] [[VInt 1; VStr " y "]] in
  let w := mkWorld [b; s; b] [] in
  ∃ b' s',
    heap (merge_datasets 0 1 "id" "id" w).2 !! 0 = Some b'
    ∧ heap (merge_datasets 0 1 "id" "id" w).2 !! 1 = Some s'
    ∧ same_but_column "id" b b'
    ∧ same_but_column "id" s s'
    ∧ ∀ r t, r ≠ 0 → r ≠ 1 → heap w !! r = Some t →
             heap (merge_datasets 0 1 "id" "id" w).2 !! r = Some t.
Proof.
  intros b s w.
  apply (merge_touches_only_keys w 0 1 "id" "id" b s
           (merge_datasets 0 1 "id" "id" w).1 (merge_datasets 0 1 "id" "id" w).2).
  - lia.
  - reflexivity.
  - reflexivity.
  - repeat constructor.
  - reflexivity.
Defined.

(** ** Matching rows *)

Lemma matches_none rrows j k :
  k ∉ map (λ r, cell r j) rrows → matches rrows j k = [].
Proof.
  unfold matches. induction rrows as [|y l IH]; simpl; intros Hk; [done|].
  apply not_elem_of_cons in Hk as [Hne Hk].
  rewrite filter_cons_False by done. by apply IH.
Qed.

Lemma matches_unique_row rrows j x :
  NoDup (map (λ r, cell r j) rrows) → x ∈ rrows → matches rrows j (cell x j) = [x].
Proof.
  induction rrows as [|y l IH]; simpl; intros Hnd Hx.
  - by apply elem_of_nil in Hx.
  - apply NoDup_cons in Hnd as [Hy Hnd]. unfold matches in *.
    destruct (decide (cell y j = cell x j)) as [E|E].
    + rewrite filter_cons_True by done.
      assert (x = y) as ->.
      { apply elem_of_cons in Hx as [->|Hx]; [done|]. exfalso. apply Hy. rewrite E.
        apply list_elem_of_In, in_map_iff. exists x. split; [done|by apply list_elem_of_In]. }
      f_equal. by apply (matches_none l j (cell y j)).
    + rewrite filter_cons_False by done.
      apply elem_of_cons in Hx as [->|Hx]; [done|]. by apply IH.
Qed.

Lemma normalized_rows_lookup df i p r :
  rows df !! p = Some r → rows (normalized df i) !! p = Some (normalized_row i r).
Proof.
  intros Hr. unfold normalized. cbn [rows].
  change (map ?f (rows df)) with (f <$> rows df).
  by rewrite list_lookup_fmap, Hr.
Qed.

Lemma normalized_row_key i r :
  i < length r → cell (normalized_row i r) i = VStr (Str.strip (py_str (cell r i))).
Proof. intros Hi. by apply cell_insert. Qed.

(** X6.  In a merge that succeeds, a base row is joined with the secondary
    row whose key is the same once both are cast to text and trimmed (the
    number 1 matches the text " 1 "): the row of the result at the base
    row's position is that base row followed by the kept cells of that
    secondary row, both with their key normalized. *)
Theorem merge_joins_matching_rows
    (w : world) (base_df new_df : ref) (key_base key_new : string)
    (b s : DataFrame) (i j p : nat) (l r : list value) :
  base_df ≠ new_df →
  heap w !! base_df = Some b →
  heap w !! new_df = Some s →
  rectangular b →
  rectangular s →
  get_indexer_for (columns b) key_base = [i] →
  get_indexer_for (columns s) key_new = [j] →
  NoDup (normalized_keys s j) →
  suffix_clashes b s key_base key_new j = [] →
  rows b !! p = Some l →
  r ∈ rows s →
  Str.strip (py_str (cell l i)) = Str.strip (py_str (cell r j)) →
  ∃ m : DataFrame,
    merge_datasets base_df new_df key_base key_new w
    = (inr (S (length (heap w))),
       {| heap := checked_heap (heap w) base_df new_df b s i j ++ [m];
          shown := shown w |})
    ∧ rows m !! p
      = Some (normalized_row i l
              ++ right_kept key_base key_new j (normalized_row j r)).
Proof.
  intros Hd Hb Hn Hrb Hrs Hi Hj Hnd Hclash Hl Hr Hkey.
  destruct (get_indexer_for_singleton _ _ _ Hi) as [_ Hilt].
  destruct (get_indexer_for_singleton _ _ _ Hj) as [_ Hjlt].
  exists (merged_frame b s key_base key_new i j).
  split; [by apply merge_datasets_success|].
  assert (length l = length (columns b)) as Hll.
  { unfold rectangular in Hrb. rewrite Forall_forall in Hrb. apply Hrb.
    apply list_elem_of_lookup. by exists p. }
  assert (length r = length (columns s)) as Hlr.
  { unfold rectangular in Hrs. rewrite Forall_forall in Hrs. by apply Hrs. }
  unfold merged_frame. cbn [rows].
  rewrite (join_rows_lookup _ _ _ _ _ _ p (normalized_row i l)).
  - rewrite normalized_row_key by lia. rewrite Hkey.
    rewrite <- (normalized_row_key j r) by lia.
    rewrite matches_unique_row; [done| |].
    + change (map (λ r0, cell r0 j) (rows (normalized s j)))
        with (column_at (normalized s j) j).
      rewrite column_at_normalized by done. by apply (NoDup_fmap_2 VStr).
    + unfold normalized. cbn [rows]. apply list_elem_of_In, in_map_iff.
      exists r. split; [done|by apply list_elem_of_In].
  - intros l' _. by apply matches_unique_keys.
  - by apply normalized_rows_lookup.
Qed.

Lemma merge_joins_matching_rows_witness :
  let b := mkDataFrame ["id"; "name"] [[VInt 7; VStr "x"]; [VInt 1; VStr "y"]] in
  let s := mkDataFrame ["id"; "score"] [[VStr " 1 "; VInt 10]] in
  let w := mkWorld [b; s] [] in
  ∃ m : DataFrame,
    merge_datasets 0 1 "id" "id" w
    = (inr (S (length (heap w))),
       {| heap := checked_heap (heap w) 0 1 b s 0 0 ++ [m]; shown := shown w |})
    ∧ rows m !! 1
      = Some (normalized_row 0 [VInt 1; VStr "y"]
              ++ right_kept "id" "id" 0 (normalized_row 0 [VStr " 1 "; VInt 10])).
Proof.
  intros b s w.
  apply (merge_joins_matching_rows w 0 1 "id" "id" b s 0 0 1
           [VInt 1; VStr "y"] [VStr " 1 "; VInt 10]).
  - lia.
  - reflexivity.
  - reflexivity.
  - repeat constructor.
  - repeat constructor.
  - reflexivity.
  - reflexivity.
  - vm_compute. repeat constructor. intros H. inversion H.
  - reflexivity.
  - reflexivity.
  - left.
  - reflexivity.
Defined.

(** ** Normalizing twice *)

Lemma normalized_idemp df i :
  rectangular df → i < length (columns df) →
  normalized (normalized df i) i = normalized df i.
Proof.
  intros Hrect Hi. unfold normalized. cbn [rows columns]. f_equal.
  rewrite map_map. apply map_ext_Forall.
  eapply Forall_impl; [exact Hrect|]. intros r Hr. simpl in Hr.
  rewrite cell_insert by lia. cbn [py_str].
  by rewrite StrFacts.strip_idemp, list_insert_insert_eq.
Qed.

(** X7.  Key normalization (lines 46-47) is idempotent: run on a table
    whose key column it has already normalized, it leaves the table as it
    is, so a chain of merges on the same key keeps the keys stable. *)
Theorem normalize_inplace_idempotent
    (w : world) (r : ref) (k : string) (df : DataFrame) (i : nat) :
  heap w !! r = Some df →
  rectangular df →
  get_indexer_for (columns df) k = [i] →
  (normalize_inplace r k ≫= λ _, normalize_inplace r k) w = normalize_inplace r k w.
Proof.
  intros Hr Hrect Hi.
  destruct (get_indexer_for_singleton _ _ _ Hi) as [_ Hilt].
  apply lookup_lt_Some in Hr as Hlt.
  rewrite bind_eval, (normalize_inplace_ok _ _ _ _ _ Hr Hi).
  rewrite (normalize_inplace_ok _ _ _ (normalized df i) i); cycle 1.
  { simpl. by apply list_lookup_insert_eq. }
  { done. }
  simpl. by rewrite list_insert_insert_eq, normalized_idemp.
Qed.

Lemma normalize_inplace_idempotent_witness :
  let w := mkWorld [mkDataFrame ["id"; "v"] [[VStr " a "; VInt 1]; [VInt 2; VNaN]]] [] in
  (normalize_inplace 0 "id" ≫= λ _, normalize_inplace 0 "id") w
  = normalize_inplace 0 "id" w.
Proof.
  intros w.
  apply (normalize_inplace_idempotent w 0 "id"
           (mkDataFrame ["id"; "v"] [[VStr " a "; VInt 1]; [VInt 2; VNaN]]) 0).
  - reflexivity.
  - repeat constructor.
  - reflexivity.
Defined.

(** ** Keys that cannot be used *)

Lemma indexer_from_length n cols k :
  length (indexer_from n cols k) = occurrences k cols.
Proof.
  revert n. induction cols as [|c cols IH]; intros n; simpl; [done|].
  rewrite occurrences_cons. case_bool_decide as E.
  - rewrite decide_True by done. simpl. by rewrite IH.
  - rewrite decide_False by done. apply IH.
Qed.

(** X8.  A key that does not name exactly one column makes the merge fail
    in a fixed way.  An absent base key gives [KeyError] of that key and a
    base key that labels several columns gives [AttributeError]; in both
    cases nothing at all is modified.  An absent secondary key gives
    [KeyError] of that key after the base key has been normalized; the
    secondary table is untouched.  The base table is returned in all
    three cases. *)
Theorem merge_unusable_key
    (w : world) (base_df new_df : ref) (key_base key_new : string) (b : DataFrame) :
  heap w !! base_df = Some b →
  (key_base ∉ columns b →
     merge_datasets base_df new_df key_base key_new w
     = (inr base_df,
        {| heap := heap w;
           shown := shown w ++
             [mkMessage Error "Merge failed: " (Some (KeyError key_base))] |}))
  ∧ (2 ≤ occurrences key_base (columns b) →
       merge_datasets base_df new_df key_base key_new w
       = (inr base_df,
          {| heap := heap w;
             shown := shown w ++
               [mkMessage Error "Merge failed: "
                  (Some (AttributeError "'DataFrame' object has no attribute 'str'"))] |}))
  ∧ (∀ s i,
       base_df ≠ new_df →
       heap w !! new_df = Some s →
       get_indexer_for (columns b) key_base = [i] →
       key_new ∉ columns s →
       merge_datasets base_df new_df key_base key_new w
       = (inr base_df,
          {| heap := <[base_df := normalized b i]> (heap w);
             shown := shown w ++
               [mkMessage Error "Merge failed: " (Some (KeyError key_new))] |})).
Proof.
  intros Hb. split; [|split].
  - intros Hout. apply get_indexer_for_nil in Hout.
    apply (merge_datasets_fallback _ _ _ _ _ _ w); [|done].
    apply (merge_body_base_key_raises _ _ _ _ _ b); [done|by apply normalized_key_absent].
  - intros Htwice. unfold get_indexer_for in *.
    pose proof (indexer_from_length 0 (columns b) key_base) as Hlen.
    destruct (indexer_from 0 (columns b) key_base) as [|i [|i' ixs]] eqn:E;
      simpl in Hlen; [lia..|].
    apply (merge_datasets_fallback _ _ _ _ _ _ w); [|done].
    apply (merge_body_base_key_raises _ _ _ _ _ b); [done|].
    by eapply normalized_key_repeated.
  - intros s i Hd Hn Hi Hout. apply get_indexer_for_nil in Hout.
    apply (merge_datasets_fallback _ _ _ _ _ _
             {| heap := <[base_df := normalized b i]> (heap w); shown := shown w |});
      [|done].
    apply (merge_body_new_key_raises _ _ _ _ _ b s i); [done..|].
    by apply normalized_key_absent.
Qed.

Lemma merge_unusable_key_witness :
  let b := mkDataFrame ["id"; "id"] [[VInt 1; VInt 2]] in
  let w := mkWorld [b; mkDataFrame ["k"] [[VInt 1]]] [] in
  merge_datasets 0 1 "id" "k" w
  = (inr 0,
     {| heap := heap w;
        shown := shown w ++
          [mkMessage Error "Merge failed: "
             (Some (AttributeError "'DataFrame' object has no attribute 'str'"))] |}).
Proof.
  intros b w.
  destruct (merge_unusable_key w 0 1 "id" "k" b) as (_ & Htwice & _).
  - reflexivity.
  - apply Htwice. vm_compute. lia.
Defined.

(** ** The name of the downloaded file *)

Lemma rev_chars_app s1 s2 acc :
  Str.rev_chars (s1 +:+ s2) acc = Str.rev_chars s2 (Str.rev_chars s1 acc).
Proof. revert acc. induction s1 as [|c s1 IH]; intros acc; simpl; [done|]. apply IH. Qed.

Lemma rev_chars_acc s acc : Str.rev_chars s acc = Str.rev_chars s [] ++ acc.
Proof.
  revert acc. induction s as [|c s IH]; intros acc; simpl; [done|].
  rewrite IH, (IH [c]). by rewrite <- app_assoc.
Qed.

Lemma prefix_chars_app p l : Str.prefix_chars p (p ++ l) = true.
Proof.
  induction p as [|a p IH]; simpl; [done|]. by rewrite bool_decide_true, IH.
Qed.

Lemma endswith_app s t : Str.endswith (s +:+ t) t = true.
Proof.
  unfold Str.endswith.
  rewrite rev_chars_app, (rev_chars_acc t (Str.rev_chars s [])). apply prefix_chars_app.
Qed.

Lemma lower_app s t : Str.lower (s +:+ t) = Str.lower s +:+ Str.lower t.
Proof. induction s as [|c s IH]; simpl; [done|]. by rewrite IH. Qed.

(** X9.  The name given to the download always ends in ".csv", whatever the
    case of the letters typed: a name that already does is kept as typed,
    any other gets ".csv" appended, and applying the rule twice changes
    nothing more. *)
Theorem output_filename_csv (user_filename : string) :
  Str.endswith (Str.lower (output_filename user_filename)) ".csv" = true
  ∧ output_filename (output_filename user_filename) = output_filename user_filename
  ∧ (Str.endswith (Str.lower user_filename) ".csv" = true
     → output_filename user_filename = user_filename)
  ∧ (Str.endswith (Str.lower user_filename) ".csv" = false
     → output_filename user_filename = user_filename +:+ ".csv").
Proof.
  assert (Str.endswith (Str.lower (output_filename user_filename)) ".csv" = true) as Hends.
  { unfold output_filename.
    destruct (Str.endswith (Str.lower user_filename) ".csv") eqn:E; simpl; [done|].
    rewrite lower_app. apply endswith_app. }
  split; [done|]. split; [|split].
  - unfold output_filename at 1. by rewrite Hends.
  - intros E. unfold output_filename. by rewrite E.
  - intros E. unfold output_filename. by rewrite E.
Qed.

(** ** Selecting the columns of the final table *)

Lemma get_indexer_for_NoDup (cols : list string) i c :
  NoDup cols → cols !! i = Some c → get_indexer_for cols c = [i].
Proof.
  intros Hnd Hi.
  assert (length (get_indexer_for cols c) = 1) as Hlen.
  { unfold get_indexer_for. rewrite indexer_from_length.
    pose proof (occurrences_NoDup c _ Hnd).
    assert (1 ≤ occurrences c cols); [|lia].
    apply occurrences_pos, list_elem_of_lookup. by exists i. }
  apply elem_of_get_indexer_for in Hi.
  destruct (get_indexer_for cols c) as [|i0 [|i1 l]]; simpl in Hlen; try lia.
  apply list_elem_of_singleton in Hi. by subst.
Qed.

(** The positions [df[labels]] reads, one per label. *)
Lemma selected_positions (cols labels : list string) :
  NoDup cols → labels ⊆ cols →
  Forall2 (λ c i, cols !! i = Some c) labels (labels ≫= get_indexer_for cols).
Proof.
  intros Hnd. induction labels as [|c ls IH]; intros Hsub; [constructor|].
  assert (c ∈ cols) as Hc by (apply Hsub; by left).
  apply list_elem_of_lookup in Hc as [i Hi].
  rewrite bind_cons, (get_indexer_for_NoDup _ _ _ Hnd Hi). simpl.
  constructor; [done|]. apply IH. intros x Hx. apply Hsub. by right.
Qed.

Lemma selected_labels (cols labels : list string) (ixs : list nat) :
  Forall2 (λ c i, cols !! i = Some c) labels ixs →
  ixs ≫= (λ i, option_list (cols !! i)) = labels.
Proof.
  induction 1 as [|c i ls ixs Hi _ IH]; [done|].
  rewrite bind_cons, Hi, IH. done.
Qed.

(** X10.  Selecting labels of a table whose labels are distinct gives a new
    table with exactly the selected labels, in the order selected, and all
    the rows: each cell is the cell of the same row under that label in
    the original. *)
Theorem getitem_list_selects (df : DataFrame) (labels : list string) :
  NoDup (columns df) →
  labels ⊆ columns df →
  ∃ t, getitem_list df labels = inr t
       ∧ columns t = labels
       ∧ length (rows t) = length (rows df)
       ∧ ∀ p r q c i,
           rows df !! p = Some r →
           labels !! q = Some c →
           columns df !! i = Some c →
           ∃ r', rows t !! p = Some r' ∧ length r' = length labels ∧ cell r' q = cell r i.
Proof.
  intros Hnd Hsub.
  pose proof (selected_positions _ _ Hnd Hsub) as Hpos.
  eexists. split; [|split; [|split]].
  - unfold getitem_list.
    assert (filter (λ k, k ∉ columns df) labels = []) as ->; [|done].
    clear Hpos. induction labels as [|c ls IH]; [done|].
    rewrite filter_cons_False.
    + apply IH. intros x Hx. apply Hsub. by right.
    + intros Hc. apply Hc, Hsub. by left.
  - cbn [columns]. by apply selected_labels.
  - cbn [rows]. by rewrite length_map.
  - intros p r q c i Hr Hq Hi. cbn [rows].
    change (map ?f (rows df)) with (f <$> rows df).
    rewrite list_lookup_fmap, Hr. eexists. split; [done|].
    split; [rewrite length_map; symmetry; by eapply Forall2_length|].
    destruct (Forall2_lookup_l _ _ _ _ _ Hpos Hq) as (i' & Hi' & Hci').
    assert (i' = i) as ->.
    { eapply NoDup_lookup; [exact Hnd|exact Hci'|exact Hi]. }
    unfold cell at 1. change (map (cell r) ?l) with (cell r <$> l).
    by rewrite list_lookup_fmap, Hi'.
Qed.

Lemma getitem_list_selects_witness :
  let df := mkDataFrame ["id"; "name"; "score"] [[VStr "1"; VStr "x"; VInt 10]] in
  ∃ t, getitem_list df ["score"; "id"] = inr t
       ∧ columns t = ["score"; "id"]
       ∧ length (rows t) = length (rows df)
       ∧ ∀ p r q c i,
           rows df !! p = Some r →
           ["score"; "id"] !! q = Some c →
           columns df !! i = Some c →
           ∃ r', rows t !! p = Some r' ∧ length r' = length ["score"; "id"]
                 ∧ cell r' q = cell r i.
Proof.
  intros df.
  apply (getitem_list_selects df ["score"; "id"]).
  - vm_compute. repeat constructor; intros H; inversion H; subst;
      repeat match goal with H : _ ∈ _ |- _ => inversion H; clear H; subst end.
  - intros x Hx. vm_compute.
    repeat (apply elem_of_cons in Hx as [->|Hx]; [repeat constructor|]).
    by apply elem_of_nil in Hx.
Defined.

(** ** The merge steps of the main workflow *)

Lemma app_bind_eval {A B} (m : App A) (k : A → App B) p :
  (m ≫= k) p = match m p with
               | (inl e, p') => (inl e, p')
               | (inr a, p') => k a p'
               end.
Proof. reflexivity. Qed.

(** What the handler of a file's "Merge" button does, by the result of
    [merge_datasets]. *)
Lemma merge_next_eval file_data next_file key_current key_new p base used new_df :
  merged_df (session_state p) = Some base →
  used_files (session_state p) = Some used →
  dict_get file_data next_file = inr new_df →
  merge_next file_data next_file key_current key_new p
  = match merge_datasets base new_df key_current key_new (sys p) with
    | (inl e, w') =>
        (inl e, {| sys := w'; session_state := session_state p;
                   celebrated := celebrated p |})
    | (inr m, w') =>
        (inr (),
         {| sys := w';
            session_state := {| merged_df := Some m;
                                used_files := Some (used ∪ {[next_file]}) |};
            celebrated := celebrated p ++
              [next_file +:+ " merged successfully. New shape: "
               +:+ shape_str (default empty_frame (heap w' !! m))] |})
    end.
Proof.
  intros Hm Hu Hg. unfold merge_next.
  rewrite app_bind_eval. unfold get_merged_df at 1. rewrite Hm.
  rewrite app_bind_eval. unfold app_lift at 1. rewrite Hg.
  rewrite app_bind_eval. unfold run at 1.
  destruct (merge_datasets base new_df key_current key_new (sys p)) as [[e|m] w'];
    [done|].
  rewrite app_bind_eval. unfold set_merged_df at 1. cbn [sys session_state celebrated].
  rewrite app_bind_eval. unfold get_used_files at 1.
  cbn [sys session_state celebrated used_files merged_df]. rewrite Hu.
  reflexivity.
Qed.

(** X11.  A merge that fails is still recorded as done.  When
    [merge_datasets] falls back on the base table, the handler of the
    file's button keeps that table as [merged_df], adds the file to
    [used_files] and shows "merged successfully" with the base table's
    shape, right after the error. *)
Theorem merge_next_records_failure
    (file_data : list (string * ref)) (next_file key_current key_new : string)
    (p : page) (base new_df : ref) (used : gset string)
    (b s : DataFrame) (e : exn) (w1 : world) :
  merged_df (session_state p) = Some base →
  used_files (session_state p) = Some used →
  dict_get file_data next_file = inr new_df →
  base ≠ new_df →
  heap (sys p) !! base = Some b →
  heap (sys p) !! new_df = Some s →
  rectangular s →
  merge_body base new_df key_current key_new (sys p) = (inl e, w1) →
  is_Exception e = true →
  merge_next file_data next_file key_current key_new p
  = (inr (),
     {| sys := {| heap := heap w1;
                  shown := shown (sys p) ++
                    [mkMessage Error "Merge failed: " (Some e)] |};
        session_state := {| merged_df := Some base;
                            used_files := Some (used ∪ {[next_file]}) |};
        celebrated := celebrated p ++
          [next_file +:+ " merged successfully. New shape: " +:+ shape_str b] |}).
Proof.
  intros Hm Hu Hg Hd Hb Hn Hrect Hbody He.
  rewrite (merge_next_eval _ _ _ _ _ base used new_df) by done.
  rewrite (merge_datasets_fallback _ _ _ _ _ e w1) by done.
  destruct (merge_body_raises _ _ _ _ _ _ _ _ _ Hd Hb Hn Hrect Hbody He) as [Hshown Hbase].
  cbn [heap]. rewrite Hbase, Hshown. cbn [default].
  do 4 f_equal. unfold id.
  destruct (get_indexer_for (columns b) key_current) as [|i [|i' ixs]]; try done.
  unfold shape_str, shape, normalized. cbn [rows columns fst snd].
  by rewrite length_map.
Qed.

Lemma merge_next_records_failure_witness :
  let b := mkDataFrame ["id"] [[VInt 1]; [VInt 2]] in
  let s := mkDataFrame ["k"] [[VStr "1"]] in
  let p := mkPage (mkWorld [b; s] []) (mkSession (Some 0) (Some {["a.csv"]})) [] in
  merge_next [("a.csv", 0); ("b.csv", 1)] "b.csv" "id" "zz" p
  = (inr (),
     {| sys := {| heap := [mkDataFrame ["id"] [[VStr "1"]; [VStr "2"]]; s];
                  shown := shown (sys p) ++
                    [mkMessage Error "Merge failed: " (Some (KeyError "zz"))] |};
        session_state := {| merged_df := Some 0;
                            used_files := Some ({["a.csv"]} ∪ {["b.csv"]}) |};
        celebrated := celebrated p ++
          ["b.csv" +:+ " merged successfully. New shape: " +:+ shape_str b] |}).
Proof.
  intros b s p.
  apply (merge_next_records_failure [("a.csv", 0); ("b.csv", 1)] "b.csv" "id" "zz" p
           0 1 {["a.csv"]} b s (KeyError "zz")
           (mkWorld [mkDataFrame ["id"] [[VStr "1"]; [VStr "2"]]; s] [])).
  - reflexivity.
  - reflexivity.
  - reflexivity.
  - lia.
  - reflexivity.
  - reflexivity.
  - repeat constructor.
  - reflexivity.
  - reflexivity.
Defined.



Lemma merge_loop_used file_data ui remaining :
  ∀ p p' base (used : gset string),
    merged_df (session_state p) = Some base →
    used_files (session_state p) = Some used →
    merge_loop file_data remaining ui p = (inr (), p') →
    ∃ base' (used' : gset string),
      session_state p' = {| merged_df := Some base'; used_files := Some used' |}
      ∧ ∀ f, f ∈ used' ↔ f ∈ used ∨ (f ∈ remaining ∧ (ui f).2 = true).
Proof.
  induction remaining as [|nf rest IH]; intros p p' base used Hm Hu Hrun.
  - injection Hrun as <-. exists base, used. split.
    + destruct (session_state p) as [m u]. simpl in *. by subst.
    + intros f. split; [by left|]. intros [?|[Hin _]]; [done|].
      by apply elem_of_nil in Hin.
  - cbn [merge_loop] in Hrun.
    rewrite app_bind_eval in Hrun. unfold get_merged_df at 1 in Hrun. rewrite Hm in Hrun.
    rewrite app_bind_eval in Hrun. unfold app_lift at 1 in Hrun.
    destruct (dict_get file_data nf) as [e|new_df] eqn:Hg; [discriminate|].
    rewrite app_bind_eval in Hrun.
    destruct (ui nf).2 eqn:Hpressed.
    + rewrite (merge_next_eval _ _ _ _ _ base used new_df) in Hrun by done.
      destruct (merge_datasets _ _ _ _ _) as [[e|m] w']; [discriminate|].
      eapply IH in Hrun as (base' & used' & Hs & Hin); [|reflexivity|reflexivity].
      exists base', used'. split; [done|].
      intros f. rewrite Hin, elem_of_union, elem_of_singleton, elem_of_cons. split.
      * intros [[? | ->]|[? ?]]; [by left|right; split; [by left|done]|].
        right. split; [by right|done].
      * intros [?|[[-> | ?] ?]]; [left; by left|left; by right|by right].
    + destruct (IH _ _ base used Hm Hu Hrun) as (base' & used' & Hs & Hin).
      exists base', used'. split; [done|].
      intros f. rewrite Hin, elem_of_cons. split.
      * intros [?|[? ?]]; [by left|]. right. split; [by right|done].
      * intros [?|[[-> | ?] Hp]]; [by left|congruence|by right].
Qed.

(** X13.  The second merge step records every file it merges and nothing
    else.  When it returns, [used_files] holds what it held before and the
    files not yet used whose button was pressed, so none of these files is
    listed by [remaining_files] again: within a chain a file is merged at
    most once. *)
Theorem step_2_marks_used
    (file_data : list (string * ref)) (ui : string → string * string * bool)
    (p p' : page) (base : ref) (used : gset string) :
  merged_df (session_state p) = Some base →
  used_files (session_state p) = Some used →
  step_2 file_data ui p = (inr (), p') →
  ∃ base' (used' : gset string),
    session_state p' = {| merged_df := Some base'; used_files := Some used' |}
    ∧ (∀ f, f ∈ used'
            ↔ f ∈ used ∨ (f ∈ dict_keys file_data ∧ (f ∉ used) ∧ ((ui f).2 = true)))
    ∧ ∀ f, (ui f).2 = true → f ∉ remaining_files (dict_keys file_data) used'.
Proof.
  intros Hm Hu Hrun. unfold step_2 in Hrun. rewrite Hm in Hrun.
  rewrite app_bind_eval in Hrun. unfold get_used_files at 1 in Hrun. rewrite Hu in Hrun.
  destruct (merge_loop_used _ _ _ _ _ base used Hm Hu Hrun) as (base' & used' & Hs & Hin).
  assert (∀ f, f ∈ used'
               ↔ f ∈ used ∨ (f ∈ dict_keys file_data ∧ (f ∉ used) ∧ ((ui f).2 = true)))
    as Hin'.
  { intros f. rewrite Hin. unfold remaining_files. rewrite list_elem_of_filter. tauto. }
  exists base', used'. split; [done|]. split; [done|].
  intros f Hpressed Hrem. unfold remaining_files in Hrem.
  apply list_elem_of_filter in Hrem as [Hout Hkey]. apply Hout, Hin'.
  destruct (decide (f ∈ used)); [by left|by right].
Qed.

Lemma step_2_marks_used_witness :
  let b := mkDataFrame ["id"] [[VStr "1"]] in
  let s := mkDataFrame ["id"; "v"] [[VStr "1"; VInt 5]] in
  let fd := [("a.csv", 0); ("b.csv", 1); ("c.csv", 2)] in
  let ui := λ f : string, ("id", "id", bool_decide (f = "c.csv")) in
  let p := mkPage (mkWorld [b; s; s] []) (mkSession (Some 0) (Some {["a.csv"; "b.csv"]})) [] in
  ∃ base' (used' : gset string),
    session_state (step_2 fd ui p).2
    = {| merged_df := Some base'; used_files := Some used' |}
    ∧ (∀ f, f ∈ used'
            ↔ f ∈ ({["a.csv"; "b.csv"]} : gset string)
              ∨ (f ∈ dict_keys fd ∧ (f ∉ ({["a.csv"; "b.csv"]} : gset string))
                 ∧ ((ui f).2 = true)))
    ∧ ∀ f, (ui f).2 = true → f ∉ remaining_files (dict_keys fd) used'.
Proof.
  intros b s fd ui p.
  apply (step_2_marks_used fd ui p (step_2 fd ui p).2 0 {["a.csv"; "b.csv"]}).
  - reflexivity.
  - reflexivity.
  - vm_compute. reflexivity.
Defined.

(** X14.  "Merge Initial Files" starts the chain anew.  With at least two
    loaded files, two non-empty selections and the button pressed, a merge
    that returns replaces whatever the session held: [merged_df] is the
    returned table and [used_files] is exactly the two selected files, so
    every other loaded file is listed by [remaining_files] again.  With
    fewer than two loaded files, or with the button not pressed, the step
    changes nothing. *)
Theorem step_1_restarts
    (file_data : list (string * ref)) (file_1 file_2 key_1 key_2 : string)
    (p : page) (b s m : ref) (w' : world) :
  dict_get file_data file_1 = inr b →
  dict_get file_data file_2 = inr s →
  merge_datasets b s key_1 key_2 (sys p) = (inr m, w') →
  (2 ≤ length (dict_keys file_data) → file_1 ≠ "" → file_2 ≠ "" →
     step_1 file_data file_1 file_2 key_1 key_2 true p
     = (inr (),
        {| sys := w';
           session_state := {| merged_df := Some m;
                               used_files := Some {[file_1; file_2]} |};
           celebrated := celebrated p ++
             [file_2 +:+ " merged into " +:+ file_1 +:+ ". Shape: "
              +:+ shape_str (default empty_frame (heap w' !! m))] |})
     ∧ ∀ f, f ∈ dict_keys file_data → f ≠ file_1 → f ≠ file_2 →
            f ∈ remaining_files (dict_keys file_data) {[file_1; file_2]})
  ∧ (length (dict_keys file_data) < 2 →
       ∀ pressed, step_1 file_data file_1 file_2 key_1 key_2 pressed p = (inr (), p))
  ∧ step_1 file_data file_1 file_2 key_1 key_2 false p = (inr (), p).
Proof.
  intros Hb Hs Hrun. split; [|split].
  - intros Hlen H1 H2. split.
    + unfold step_1. rewrite bool_decide_true by done.
      unfold truthy. rewrite !bool_decide_false by done. cbn [negb andb].
      rewrite app_bind_eval. unfold app_lift at 1. rewrite Hb.
      rewrite app_bind_eval. unfold app_lift at 1. rewrite Hs.
      unfold merge_initial.
      rewrite app_bind_eval. unfold app_lift at 1. rewrite Hb.
      rewrite app_bind_eval. unfold app_lift at 1. rewrite Hs.
      rewrite app_bind_eval. unfold run at 1. rewrite Hrun. reflexivity.
    + intros f Hf Hn1 Hn2. unfold remaining_files. apply list_elem_of_filter.
      split; [|done]. rewrite elem_of_union, !elem_of_singleton. tauto.
  - intros Hlen pressed. unfold step_1. by rewrite bool_decide_false by lia.
  - unfold step_1. case_bool_decide; [|done].
    destruct (truthy file_1 && truthy file_2); [|done].
    rewrite app_bind_eval. unfold app_lift at 1. rewrite Hb.
    rewrite app_bind_eval. unfold app_lift at 1. by rewrite Hs.
Qed.

Lemma step_1_restarts_witness :
  let b := mkDataFrame ["id"] [[VStr "1"]] in
  let s := mkDataFrame ["id"; "v"] [[VStr "1"; VInt 5]] in
  let fd := [("a.csv", 0); ("b.csv", 1); ("c.csv", 2)] in
  let p := mkPage (mkWorld [b; s; s] [])
             (mkSession (Some 2) (Some {["a.csv"; "b.csv"; "c.csv"]})) [] in
  step_1 fd "a.csv" "b.csv" "id" "id" true p
  = (inr (),
     {| sys := (merge_datasets 0 1 "id" "id" (sys p)).2;
        session_state := {| merged_df := Some 4;
                            used_files := Some {["a.csv"; "b.csv"]} |};
        celebrated := celebrated p ++
          ["b.csv" +:+ " merged into " +:+ "a.csv" +:+ ". Shape: "
           +:+ shape_str (default empty_frame
                            (heap (merge_datasets 0 1 "id" "id" (sys p)).2 !! 4))] |})
  ∧ ∀ f, f ∈ dict_keys fd → f ≠ "a.csv" → f ≠ "b.csv" →
         f ∈ remaining_files (dict_keys fd) {["a.csv"; "b.csv"]}.
Proof.
  intros b s fd p.
  destruct (step_1_restarts fd "a.csv" "b.csv" "id" "id" p 0 1 4
              (merge_datasets 0 1 "id" "id" (sys p)).2) as (Hstart & _ & _).
  - reflexivity.
  - reflexivity.
  - reflexivity.
  - apply Hstart; [simpl; lia|discriminate|discriminate].
Defined.
